(** * mumble_llm_chat: a chat bot bridging a Mumble server and an LLM backend

    Shallow embedding of [mumble_llm_chat.py] and the properties of its
    message-to-action dispatch, command execution and connection retry loop.

    Modelling conventions.
    - A Python [str] is a list of Unicode code points ([N]).
    - Calls into the outside world (the HTTP backend, the Mumble transport,
      the clock) are answered by an explicit environment; every such call
      either returns a value or raises a Python exception.
    - Code runs in a small writer-plus-error monad: the trace records, in
      order, every log record and every call that acts on the outside world.
    - [str.lower] is a parameter of the callback: the theorems hold for
      every lowercase mapping, the examples use the one of ASCII text.
    - Of the libraries only what the program relies on is fixed:
      [raise_for_status] raises on 4xx and 5xx, [response.json()] raises a
      [RequestException] on a body that is not JSON, and every other call
      may return or raise as the environment says. *)

From Stdlib Require Import Ascii String DecimalString.
From Stdlib Require Import List NArith ZArith QArith Bool Lia.
Import ListNotations.
Close Scope Q_scope.

Set Implicit Arguments.
Set Warnings "-register-all".
Set Warnings "-notation-overridden".
Set Warnings "-notation-incompatible-prefix".

(* ================================================================== *)
(** ** Python strings *)

Module Py.

Definition char := N.
Definition str := list char.

(** A source-code literal, read as the list of its code points. *)
Definition lit (s : string) : str := map N_of_ascii (list_ascii_of_string s).

Fixpoint str_eqb (a b : str) : bool :=
  match a, b with
  | [], [] => true
  | x :: a', y :: b' => N.eqb x y && str_eqb a' b'
  | _, _ => false
  end.

(** [str.isspace] on one code point, the set used by [str.strip()] and
    [str.split()] when called without argument. *)
Definition isspace (c : char) : bool :=
  ((9 <=? c) && (c <=? 13) || (28 <=? c) && (c <=? 32)
   || (c =? 133) || (c =? 160) || (c =? 5760)
   || (8192 <=? c) && (c <=? 8202)
   || (c =? 8232) || (c =? 8233) || (c =? 8239) || (c =? 8287)
   || (c =? 12288))%N.

(** [s.startswith(prefix)] *)
Fixpoint startswith (s prefix : str) {struct prefix} : bool :=
  match prefix, s with
  | [], _ => true
  | _ :: _, [] => false
  | p :: prefix', c :: s' => N.eqb c p && startswith s' prefix'
  end.

(** [sub in s] *)
Fixpoint contains (s sub : str) : bool :=
  startswith s sub ||
  match s with
  | [] => false
  | _ :: s' => contains s' sub
  end.

(** [s.replace(old, new)] scans left to right and replaces every
    non-overlapping occurrence of [old].  [skip] counts the characters of the
    occurrence just replaced that are still to be passed over. *)
Fixpoint replace_from (old new : str) (skip : nat) (s : str) : str :=
  match s with
  | [] => []
  | c :: s' =>
      match skip with
      | S k => replace_from old new k s'
      | O =>
          if startswith s old
          then new ++ replace_from old new (pred (length old)) s'
          else c :: replace_from old new 0 s'
      end
  end.

(** With an empty [old], Python inserts [new] before every character and at
    the end. *)
Definition replace (s old new : str) : str :=
  match old with
  | [] => new ++ flat_map (fun c => c :: new) s
  | _ :: _ => replace_from old new 0 s
  end.

(** [s.lstrip()], [s.rstrip()], [s.strip()] *)
Fixpoint lstrip (s : str) : str :=
  match s with
  | [] => []
  | c :: s' => if isspace c then lstrip s' else s
  end.

Fixpoint rstrip (s : str) : str :=
  match s with
  | [] => []
  | c :: s' =>
      match rstrip s' with
      | [] => if isspace c then [] else [c]
      | r => c :: r
      end
  end.

Definition strip (s : str) : str := rstrip (lstrip s).

(** [s.split()]: maximal runs of non-whitespace characters; [cur] is the run
    being read. *)
Fixpoint split_from (cur : str) (s : str) : list str :=
  match s with
  | [] => match cur with [] => [] | _ => [cur] end
  | c :: s' =>
      if isspace c
      then match cur with
           | [] => split_from [] s'
           | _ => cur :: split_from [] s'
           end
      else split_from (cur ++ [c]) s'
  end.

Definition split (s : str) : list str := split_from [] s.

(** [str(n)] for a non-negative integer. *)
Definition str_of_nat (n : nat) : str :=
  lit (NilEmpty.string_of_uint (Nat.to_uint n)).

(** Truthiness of a [str]. *)
Definition nonempty (s : str) : bool :=
  match s with [] => false | _ => true end.

End Py.
Import Py.

(* ================================================================== *)
(** ** Exceptions, results and the trace monad *)

(** The exception classes the program raises, catches or can be handed by
    its libraries.  The first five are [requests.exceptions.RequestException]
    and subclasses of it; [KeyboardInterrupt] and [SystemExit] derive from
    [BaseException] only. *)
Inductive exn_class :=
  | RequestException
  | ConnectionError
  | Timeout
  | HTTPError
  | JSONDecodeError
  | AttributeError
  | IndexError
  | NameError
  | OtherException
  | KeyboardInterrupt
  | SystemExit.

Record exn := Exn { exn_cls : exn_class; exn_msg : str }.

(** [isinstance(e, requests.exceptions.RequestException)] *)
Definition is_RequestException (e : exn) : bool :=
  match exn_cls e with
  | RequestException | ConnectionError | Timeout | HTTPError
  | JSONDecodeError => true
  | _ => false
  end.

(** [isinstance(e, Exception)] *)
Definition is_Exception (e : exn) : bool :=
  match exn_cls e with
  | KeyboardInterrupt | SystemExit => false
  | _ => true
  end.

(** [isinstance(e, KeyboardInterrupt)] *)
Definition is_KeyboardInterrupt (e : exn) : bool :=
  match exn_cls e with
  | KeyboardInterrupt => true
  | _ => false
  end.

Inductive result (A : Type) :=
  | Ret (a : A)
  | Raise (e : exn).
Arguments Ret {A} a.
Arguments Raise {A} e.

Inductive level := INFO | WARNING | ERROR.

(** The JSON body sent to the completion endpoint; the temperature 0.7 is
    kept as the rational 7/10. *)
Record payload := Payload { prompt : str; temperature : Q; max_tokens : Z }.

(** Handles of the transport's registries.  A channel is looked into for its
    ["channel_id"] only. *)
Definition user := N.
Record channel := Channel { channel_id : N }.
Definition session := N.

(** What the program does to the outside world, recorded when the call is
    made. *)
Inductive event :=
  | Log (l : level) (msg : str)
  | HttpPost (url : str) (json : payload) (timeout : Z)
  | UserMove (u : user) (cid : N)
  | UserMute (u : user)
  | UserUnmute (u : user)
  | UserKick (u : user)
  | SendText (c : channel) (msg : str)
  | NewMumble (host username : str) (port : Z) (password : str)
  | SetCallback (s : session) (name : str)
  | Start (s : session)
  | IsReady (s : session)
  | Stop (s : session)
  | Sleep (seconds : nat).

Definition trace := list event.

Definition M (A : Type) : Type := (trace * result A)%type.

Definition ret {A} (a : A) : M A := ([], Ret a).

Definition raise {A} (e : exn) : M A := ([], Raise e).

Definition bind {A B} (m : M A) (k : A -> M B) : M B :=
  match m with
  | (t, Ret a) => let (t', r) := k a in (t ++ t', r)
  | (t, Raise e) => (t, Raise e)
  end.

(** [try: body / except <class> as e: handler e] *)
Definition try_except {A} (body : M A) (catches : exn -> bool)
    (handler : exn -> M A) : M A :=
  match body with
  | (t, Ret a) => (t, Ret a)
  | (t, Raise e) =>
      if catches e
      then let (t', r) := handler e in (t ++ t', r)
      else (t, Raise e)
  end.

(** An effectful call: the event is recorded, the environment's answer is
    the outcome. *)
Definition call {A} (ev : event) (answer : result A) : M A := ([ev], answer).

(** A call that only reads (a registry lookup). *)
Definition ask {A} (answer : result A) : M A := ([], answer).

Definition logging (l : level) (msg : str) : M unit := ([Log l msg], Ret tt).

Declare Scope py_scope.
Delimit Scope py_scope with py.
Notation "x <- m ;; k" := (bind m (fun x => k))
  (at level 61, m at next level, right associativity) : py_scope.
Notation "m ;; k" := (bind m (fun _ => k))
  (at level 61, right associativity) : py_scope.
Open Scope py_scope.

(* ================================================================== *)
(** ** Python values decoded from a JSON body *)

Inductive pyval :=
  | PNone
  | PBool (b : bool)
  | PInt (z : Z)
  | PFloat (q : Q)
  | PStr (s : str)
  | PList (l : list pyval)
  | PDict (items : list (str * pyval)).

(** Truth value of an object, as tested by [if] and the conditional
    expression. *)
Definition truthy (v : pyval) : bool :=
  match v with
  | PNone => false
  | PBool b => b
  | PInt z => negb (Z.eqb z 0)
  | PFloat q => negb (Z.eqb (Qnum q) 0)
  | PStr s => nonempty s
  | PList l => match l with [] => false | _ => true end
  | PDict d => match d with [] => false | _ => true end
  end.

Definition type_name (v : pyval) : str :=
  match v with
  | PNone => lit "NoneType"
  | PBool _ => lit "bool"
  | PInt _ => lit "int"
  | PFloat _ => lit "float"
  | PStr _ => lit "str"
  | PList _ => lit "list"
  | PDict _ => lit "dict"
  end.

Definition no_attribute (v : pyval) (attr : string) : exn :=
  Exn AttributeError
      (lit "'" ++ type_name v ++ lit "' object has no attribute '"
           ++ lit attr ++ lit "'").

(** The items of a dict carry distinct keys. *)
Fixpoint dict_lookup (items : list (str * pyval)) (key : str) : option pyval :=
  match items with
  | [] => None
  | (k, v) :: items' => if str_eqb k key then Some v else dict_lookup items' key
  end.

(** [v.get(key, default)] *)
Definition py_get (v : pyval) (key : str) (default : pyval) : M pyval :=
  match v with
  | PDict items =>
      match dict_lookup items key with
      | Some x => ret x
      | None => ret default
      end
  | _ => raise (no_attribute v "get")
  end.

(** [v.strip()] *)
Definition py_strip (v : pyval) : M str :=
  match v with
  | PStr s => ret (strip s)
  | _ => raise (no_attribute v "strip")
  end.

(* ================================================================== *)
(** ** The environment of the message callback *)

(** A response of the HTTP library: the status code and the body, which
    decodes to a value or is not JSON. *)
Inductive body := NotJson | Json (v : pyval).
Record response := Response { status_code : Z; content : body }.

(** [response.raise_for_status()] raises [HTTPError] on 4xx and 5xx (the
    wording of the message is not modelled). *)
Definition raise_for_status (r : response) : M unit :=
  if ((400 <=? status_code r) && (status_code r <? 600))%Z
  then raise (Exn HTTPError (lit "HTTP error"))
  else ret tt.

(** [response.json()] raises [requests.exceptions.JSONDecodeError] on a body
    that is not JSON. *)
Definition response_json (r : response) : M pyval :=
  match content r with
  | NotJson => raise (Exn JSONDecodeError (lit "Expecting value"))
  | Json v => ret v
  end.

(** The answers of the outside world to the calls of the callback:
    the completion endpoint and the Mumble session [mumble]. *)
Record World := {
  requests_post : str -> payload -> Z -> result response;
  users_find_by_name : str -> result (option user);
  channels_find_by_name : str -> result (option channel);
  user_move : user -> N -> result unit;
  user_mute : user -> result unit;
  user_unmute : user -> result unit;
  user_kick : user -> result unit;
  send_text_message : channel -> str -> result unit
}.

(* ================================================================== *)
(** ** Configuration *)

Definition nl : str := [10%N].

Definition MUMBLE_SERVER : str := lit "192.168.42.254".
Definition MUMBLE_PORT : Z := 64738.
Definition MUMBLE_USERNAME : str := lit "ChatBot".
Definition MUMBLE_PASSWORD : str := [].
Definition MUMBLE_CHANNEL : str := lit "Root".

Definition LLAMA_API_URL : str :=
  lit "http://" ++ MUMBLE_SERVER ++ lit ":8080/completion".

Definition INSTRUCTIONS : str :=
  nl ++
  lit "You are a Mumble Server Chatbot. Your task is to assist users and manage the Mumble server. " ++ nl ++
  lit "You can perform the following actions:" ++ nl ++
  lit "- Respond to user messages in a friendly and helpful manner." ++ nl ++
  lit "- Execute server commands when requested. Available commands:" ++ nl ++
  lit "  - /move <username> <channel>: Move a user to a specific channel." ++ nl ++
  lit "  - /mute <username>: Mute a user." ++ nl ++
  lit "  - /unmute <username>: Unmute a user." ++ nl ++
  lit "  - /kick <username>: Kick a user from the server." ++ nl ++
  lit "  - /help: List available commands." ++ nl ++
  lit "If a user requests a command, respond with the command in the format: COMMAND:<command>." ++ nl ++
  lit "Example: COMMAND:/move John General" ++ nl.

(* ================================================================== *)
(** ** generate_response *)

(** Lines 39-54.  The conditional expression evaluates its condition
    [response.json()] first.  Only [RequestException] is caught. *)
Definition generate_response (w : World) (prompt : str) : M (option str) :=
  let payload :=
    {| prompt := INSTRUCTIONS ++ lit " " ++ prompt;
       temperature := (7 # 10)%Q;
       max_tokens := 150 |} in
  try_except
    (response <- call (HttpPost LLAMA_API_URL payload 120)
                      (requests_post w LLAMA_API_URL payload 120) ;;
     raise_for_status response ;;
     cond <- response_json response ;;
     if truthy cond
     then j <- response_json response ;;
          c <- py_get j (lit "content") (PStr []) ;;
          s <- py_strip c ;;
          ret (Some s)
     else ret None)
    is_RequestException
    (fun e =>
       logging ERROR (lit "Failed to generate response: " ++ exn_msg e) ;;
       ret None).

(* ================================================================== *)
(** ** execute_command and on_message_received *)

(** [l[i]] for a non-negative index. *)
Definition index {A} (l : list A) (i : nat) : M A :=
  match nth_error l i with
  | Some x => ret x
  | None => raise (Exn IndexError (lit "list index out of range"))
  end.

Definition marker : str := lit "COMMAND:".

Definition help_message : str :=
  nl ++
  lit "                Available commands:" ++ nl ++
  lit "                - /move <username> <channel>: Move a user to a specific channel." ++ nl ++
  lit "                - /mute <username>: Mute a user." ++ nl ++
  lit "                - /unmute <username>: Unmute a user." ++ nl ++
  lit "                - /kick <username>: Kick a user from the server." ++ nl ++
  lit "                - /help: List available commands." ++ nl ++
  lit "                ".

(** [mumble.channels.find_by_name(name).send_text_message(text)]: the method
    call on a lookup that gave [None] raises [AttributeError]. *)
Definition send_to_channel (w : World) (name text : str) : M unit :=
  found <- ask (channels_find_by_name w name) ;;
  match found with
  | Some c => call (SendText c text) (send_text_message w c text)
  | None => raise (no_attribute PNone "send_text_message")
  end.

(** The bodies of the branches of [execute_command]. *)
Definition move_branch (w : World) (username channel : str) : M unit :=
  user <- ask (users_find_by_name w username) ;;
  target_channel <- ask (channels_find_by_name w channel) ;;
  match user, target_channel with
  | Some u, Some c =>
      call (UserMove u (channel_id c)) (user_move w u (channel_id c)) ;;
      logging INFO (lit "Moved " ++ username ++ lit " to " ++ channel ++ lit ".")
  | _, _ =>
      logging ERROR (lit "User " ++ username ++ lit " or channel " ++ channel
                         ++ lit " not found.")
  end.

Definition mute_branch (w : World) (username : str) : M unit :=
  user <- ask (users_find_by_name w username) ;;
  match user with
  | Some u =>
      call (UserMute u) (user_mute w u) ;;
      logging INFO (lit "Muted " ++ username ++ lit ".")
  | None => logging ERROR (lit "User " ++ username ++ lit " not found.")
  end.

Definition unmute_branch (w : World) (username : str) : M unit :=
  user <- ask (users_find_by_name w username) ;;
  match user with
  | Some u =>
      call (UserUnmute u) (user_unmute w u) ;;
      logging INFO (lit "Unmuted " ++ username ++ lit ".")
  | None => logging ERROR (lit "User " ++ username ++ lit " not found.")
  end.

Definition kick_branch (w : World) (username : str) : M unit :=
  user <- ask (users_find_by_name w username) ;;
  match user with
  | Some u =>
      call (UserKick u) (user_kick w u) ;;
      logging INFO (lit "Kicked " ++ username ++ lit ".")
  | None => logging ERROR (lit "User " ++ username ++ lit " not found.")
  end.

Definition help_branch (w : World) : M unit :=
  send_to_channel w MUMBLE_CHANNEL help_message ;;
  logging INFO (lit "Displayed help message.").

Definition invalid_branch (command : str) : M unit :=
  logging ERROR (lit "Invalid command: " ++ command).

(** [except Exception as e: logging.error(...)] around the whole body. *)
Definition guarded (body : M unit) : M unit :=
  try_except body is_Exception
    (fun e => logging ERROR (lit "Failed to execute command: " ++ exn_msg e)).

Record ChatMessage := { actor : str; message : str }.

Section Callback.

(** [str.lower], which maps a string to its lowercase form by the Unicode
    case mapping; the program compares its result with ASCII literals only. *)
Variable lower : str -> str.

(** Lines 56-119. *)
Definition execute_command (w : World) (command : str) : M unit :=
  guarded
    (if startswith command marker
     then
       let command := strip (replace command marker []) in
       let parts := split command in
       first <- index parts 0 ;;
       let action := lower first in
       if str_eqb action (lit "/move") && (length parts =? 3)%nat
       then username <- index parts 1 ;;
            channel <- index parts 2 ;;
            move_branch w username channel
       else if str_eqb action (lit "/mute") && (length parts =? 2)%nat
       then username <- index parts 1 ;;
            mute_branch w username
       else if str_eqb action (lit "/unmute") && (length parts =? 2)%nat
       then username <- index parts 1 ;;
            unmute_branch w username
       else if str_eqb action (lit "/kick") && (length parts =? 2)%nat
       then username <- index parts 1 ;;
            kick_branch w username
       else if str_eqb action (lit "/help")
       then help_branch w
       else invalid_branch command
     else ret tt).

(** Lines 121-149.  [if response:] holds for a non-empty string only. *)
Definition on_message_received (w : World) (m : ChatMessage) : M unit :=
  let user := actor m in
  let text := strip (message m) in
  if str_eqb user MUMBLE_USERNAME
  then ret tt
  else
    logging INFO (lit "Received message from " ++ user ++ lit ": " ++ text) ;;
    response <- generate_response w text ;;
    match response with
    | Some ((_ :: _) as response) =>
        logging INFO (lit "Generated response: " ++ response) ;;
        if startswith response marker
        then execute_command w response
        else
          try_except
            (send_to_channel w MUMBLE_CHANNEL response)
            is_Exception
            (fun e =>
               logging ERROR
                 (lit "Failed to send message to Mumble: " ++ exn_msg e))
    | _ => logging WARNING (lit "No response generated or API request failed.")
    end.

End Callback.

(** [str.lower] on text whose cased characters are ASCII letters. *)
Definition ascii_lower (s : str) : str :=
  map (fun c => if ((65 <=? c) && (c <=? 90))%N then (c + 32)%N else c) s.

(* ================================================================== *)
(** ** connect_to_mumble and main *)

(** The answers of the outside world during one pass of the retry loop.
    [idle] describes [while True: time.sleep(1)]: [None] when it never ends,
    [Some (n, e)] when [n] sleeps complete and [e] is raised in the next. *)
Record Attempt := {
  new_mumble : result session;
  set_callback : result unit;
  start : result unit;
  is_ready : result unit;
  idle : option (nat * exn);
  retry_sleep : result unit;
  stop : result unit
}.

(** Lines 151-167.  The module-level name [mumble] is bound by the
    assignment in [connect_to_mumble] and nowhere else: it is [None]
    (unbound) until a call of the constructor has returned. *)
Definition connect_to_mumble (a : Attempt) (mumble : option session)
  : option session * M unit :=
  (match new_mumble a with
   | Ret s => Some s
   | Raise _ => mumble
   end,
   try_except
     (s <- call (NewMumble MUMBLE_SERVER MUMBLE_USERNAME MUMBLE_PORT
                           MUMBLE_PASSWORD)
                (new_mumble a) ;;
      call (SetCallback s (lit "text_received")) (set_callback a) ;;
      call (Start s) (start a) ;;
      call (IsReady s) (is_ready a) ;;
      logging INFO
        (lit "Connected to Mumble server as " ++ MUMBLE_USERNAME ++ lit "."))
     is_Exception
     (fun e =>
        logging ERROR (lit "Failed to connect to Mumble server: " ++ exn_msg e) ;;
        raise e)).

Definition retry_attempts : nat := 5.

(** How the process ends: [main] returns, an exception leaves [main], or the
    idle loop runs for ever. *)
Inductive final :=
  | Exit
  | Crash (e : exn)
  | Hang
  | OutOfFuel.

(** What the [try] statement is about to do when its [finally] block
    starts. *)
Inductive pending :=
  | Break
  | NextIteration
  | Propagate (e : exn).

(** The [try] body: it ends by an exception or not at all (the [break] after
    the idle loop is never reached). *)
Definition try_body (a : Attempt) (mumble : option session)
  : option session * trace * option exn :=
  let (mumble, connecting) := connect_to_mumble a mumble in
  match connecting with
  | (t, Raise e) => (mumble, t, Some e)
  | (t, Ret _) =>
      match idle a with
      | None => (mumble, t, None)
      | Some (n, e) => (mumble, t ++ repeat (Sleep 1) (S n), Some e)
      end
  end.

(** The [except] clauses, tried in order. *)
Definition handlers (a : Attempt) (e : exn) (attempt : nat)
  : trace * nat * pending :=
  if is_KeyboardInterrupt e
  then ([Log INFO (lit "Bot shutting down...")], attempt, Break)
  else if is_Exception e
  then
    let attempt := S attempt in
    if (attempt <? retry_attempts)%nat
    then
      ([Log ERROR (lit "Unexpected error: " ++ exn_msg e);
        Log INFO (lit "Retrying connection... (Attempt "
                      ++ str_of_nat (attempt + 1) ++ lit " of "
                      ++ str_of_nat retry_attempts ++ lit ")");
        Sleep 5],
       attempt,
       match retry_sleep a with
       | Ret _ => NextIteration
       | Raise e' => Propagate e'
       end)
    else
      ([Log ERROR (lit "Unexpected error: " ++ exn_msg e);
        Log ERROR (lit "Max retry attempts reached. Exiting.")],
       attempt, Break)
  else ([], attempt, Propagate e).

(** [finally: if mumble: mumble.stop()]; reading the unbound name raises
    [NameError]. *)
Definition finally_block (a : Attempt) (mumble : option session) : M unit :=
  match mumble with
  | None => raise (Exn NameError (lit "name 'mumble' is not defined"))
  | Some s => call (Stop s) (stop a)
  end.

(** The events of one pass, followed by what the rest of the loop does. *)
Definition prepend (t : trace) (rest : trace * option session * final)
  : trace * option session * final :=
  let '(t', mumble, f) := rest in (t ++ t', mumble, f).

(** [while attempt < retry_attempts: try ... except ... finally ...]; the
    environment is asked for the answers of pass number [attempt]. *)
Fixpoint main_loop (env : nat -> Attempt) (fuel attempt : nat)
    (mumble : option session) : trace * option session * final :=
  match fuel with
  | O => ([], mumble, OutOfFuel)
  | S fuel' =>
      if (attempt <? retry_attempts)%nat
      then
        let a := env attempt in
        let '(mumble, t_body, raised) := try_body a mumble in
        match raised with
        | None => (t_body, mumble, Hang)
        | Some e =>
            let '(t_except, attempt, next) := handlers a e attempt in
            let (t_finally, r_finally) := finally_block a mumble in
            let t := t_body ++ t_except ++ t_finally in
            match r_finally with
            | Raise e' => (t, mumble, Crash e')
            | Ret _ =>
                match next with
                | Break => (t, mumble, Exit)
                | Propagate e' => (t, mumble, Crash e')
                | NextIteration =>
                    prepend t (main_loop env fuel' attempt mumble)
                end
            end
        end
      else ([], mumble, Exit)
  end.

(** Lines 169-199.  Each pass either ends the loop or adds one to
    [attempt], so one pass more than [retry_attempts] is fuel enough
    ([main_terminates_or_idles]). *)
Definition main (env : nat -> Attempt) : trace * option session * final :=
  main_loop env (S retry_attempts) 0 None.

(* ================================================================== *)
(** ** The command text: the code's reading and the specification's *)

(** Line 62 of the source: every occurrence of the marker is replaced. *)
Definition command_text (reply : str) : str :=
  strip (replace reply marker []).

(** Specification 4.2: the leading marker is stripped and the rest
    trimmed. *)
Definition spec_command_text (reply : str) : str :=
  strip (skipn (length marker) reply).

Definition spec_tokens (reply : str) : list str :=
  split (spec_command_text reply).

(** Specification 4.2, the table of verbs and their argument counts. *)
Definition spec_arity (verb : str) : option nat :=
  if str_eqb verb (lit "/move") then Some 2%nat
  else if str_eqb verb (lit "/mute") then Some 1%nat
  else if str_eqb verb (lit "/unmute") then Some 1%nat
  else if str_eqb verb (lit "/kick") then Some 1%nat
  else if str_eqb verb (lit "/help") then Some 0%nat
  else None.

(** Every exception a call of the environment raises satisfies [PX]. *)
Definition raises_within (PX : exn -> Prop) {A} (r : result A) : Prop :=
  match r with
  | Ret _ => True
  | Raise e => PX e
  end.

Record world_within (PX : exn -> Prop) (w : World) : Prop := {
  within_post : forall u p t, raises_within PX (requests_post w u p t);
  within_users : forall n, raises_within PX (users_find_by_name w n);
  within_channels : forall n, raises_within PX (channels_find_by_name w n);
  within_move : forall u c, raises_within PX (user_move w u c);
  within_mute : forall u, raises_within PX (user_mute w u);
  within_unmute : forall u, raises_within PX (user_unmute w u);
  within_kick : forall u, raises_within PX (user_kick w u);
  within_send : forall c m, raises_within PX (send_text_message w c m)
}.

(** No call of the environment raises anything but an [Exception]
    ([KeyboardInterrupt] and [SystemExit] are not delivered to the thread
    that runs the callback). *)
Definition orderly (w : World) : Prop :=
  world_within (fun e => is_Exception e = true) w.

Definition is_post (ev : event) : bool :=
  match ev with
  | HttpPost _ _ _ => true
  | _ => false
  end.

(** A computation whose trace holds no request to the backend and whose
    exception, if any, satisfies [PX]. *)
Definition respects (PX : exn -> Prop) {A} (m : M A) : Prop :=
  Forall (fun ev => is_post ev = false) (fst m) /\ raises_within PX (snd m).

(** An exception class closed under what the interpreter itself raises in
    the callback. *)
Definition holds_builtin (PX : exn -> Prop) : Prop :=
  PX (Exn IndexError (lit "list index out of range")) /\
  forall v attr, PX (no_attribute v attr).

(** A registry lookup resolves when it returns a handle; it fails to when
    it returns [None] or raises. *)
Definition resolved {A} (r : result (option A)) : bool :=
  match r with
  | Ret (Some _) => true
  | _ => false
  end.

(** A verb with the number of arguments its row of the table asks for. *)
Definition spec_well_formed (verb : str) (nargs : nat) : bool :=
  match spec_arity verb with
  | Some k => (nargs =? k)%nat
  | None => false
  end.

(* ================================================================== *)
(** ** A concrete world *)

(** Registries with the users Bob, COMMAND:Bob and Alice and the channels
    Root and Lounge; every moderation call and every send succeeds; the
    completion endpoint answers [reply]. *)
Definition demo_users (name : str) : option user :=
  if str_eqb name (lit "Bob") then Some 7%N
  else if str_eqb name (lit "COMMAND:Bob") then Some 8%N
  else if str_eqb name (lit "Alice") then Some 3%N
  else None.

Definition demo_channels (name : str) : option channel :=
  if str_eqb name (lit "Root") then Some (Channel 0)
  else if str_eqb name (lit "Lounge") then Some (Channel 2)
  else None.

Definition demo_world (reply : result response) : World :=
  {| requests_post := fun _ _ _ => reply;
     users_find_by_name := fun name => Ret (demo_users name);
     channels_find_by_name := fun name => Ret (demo_channels name);
     user_move := fun _ _ => Ret tt;
     user_mute := fun _ => Ret tt;
     user_unmute := fun _ => Ret tt;
     user_kick := fun _ => Ret tt;
     send_text_message := fun _ _ => Ret tt |}.

(** A backend that answers 200 with the given text in its content field. *)
Definition answers (text : string) : result response :=
  Ret (Response 200 (Json (PDict [(lit "content", PStr (lit text))]))).

(* ================================================================== *)
(** ** Outcomes of the generation call *)

(** The answer of the completion endpoint to the request built for
    [prompt]. *)
Definition backend_answer (w : World) (prompt : str) : result response :=
  requests_post w LLAMA_API_URL
    {| prompt := INSTRUCTIONS ++ lit " " ++ prompt;
       temperature := (7 # 10)%Q;
       max_tokens := 150 |} 120.

(** A failure of the transport: the HTTP library raises one of its own
    exceptions, the status is 4xx or 5xx, or the body is not JSON. *)
Definition transport_failure (answer : result response) : bool :=
  match answer with
  | Raise e => is_RequestException e
  | Ret r =>
      ((400 <=? status_code r) && (status_code r <? 600))%Z
      || match content r with NotJson => true | Json _ => false end
  end.

(** The generated text is missing: the decoded body is falsy, or it is an
    object whose [content] is absent or blank. *)
Definition text_missing (answer : result response) : bool :=
  match answer with
  | Ret r =>
      match content r with
      | Json v =>
          negb (truthy v)
          || match v with
             | PDict items =>
                 match dict_lookup items (lit "content") with
                 | None => true
                 | Some (PStr s) => negb (nonempty (strip s))
                 | Some _ => false
                 end
             | _ => false
             end
      | NotJson => false
      end
  | Raise _ => false
  end.

(** The caller's test [if response:] fails on [None] and on the empty
    string alike; both stand for Failure. *)
Definition is_Failure (r : option str) : bool :=
  match r with
  | None => true
  | Some s => negb (nonempty s)
  end.

(* ================================================================== *)
(** ** Observations on a run of main *)

(** The connection attempts and the waits of a trace, in order. *)
Inductive tick :=
  | Connect
  | Wait (seconds : nat).

Definition tick_of (ev : event) : list tick :=
  match ev with
  | NewMumble _ _ _ _ => [Connect]
  | Sleep n => [Wait n]
  | _ => []
  end.

Definition schedule (t : trace) : list tick := flat_map tick_of t.

(** The connection attempt of a pass fails: the session object is built and
    a later step of [connect_to_mumble] raises an [Exception]. *)
Definition connection_fails (a : Attempt) : bool :=
  match new_mumble a, snd (snd (connect_to_mumble a None)) with
  | Ret _, Raise e => is_Exception e
  | _, _ => false
  end.

(** Nothing interrupts the wait before the next attempt, and stopping the
    session succeeds. *)
Definition undisturbed (a : Attempt) : bool :=
  match retry_sleep a, stop a with
  | Ret _, Ret _ => true
  | _, _ => false
  end.

(** The process comes to an end. *)
Definition exits (f : final) : bool :=
  match f with
  | Exit | Crash _ => true
  | Hang | OutOfFuel => false
  end.

(** The record written on entering the Connected state. *)
Definition connected_record : event :=
  Log INFO (lit "Connected to Mumble server as " ++ MUMBLE_USERNAME ++ lit ".").

(** A server that refuses every connection. *)
Definition always_refused (i : nat) : Attempt :=
  {| new_mumble := Ret (N.of_nat i);
     set_callback := Ret tt;
     start := Raise (Exn OtherException (lit "Connection refused"));
     is_ready := Ret tt;
     idle := None;
     retry_sleep := Ret tt;
     stop := Ret tt |}.

(** A session that connects at once and is interrupted from the keyboard
    after two seconds of idling. *)
Definition interrupted_session (i : nat) : Attempt :=
  {| new_mumble := Ret (N.of_nat i);
     set_callback := Ret tt;
     start := Ret tt;
     is_ready := Ret tt;
     idle := Some (2%nat, Exn KeyboardInterrupt []);
     retry_sleep := Ret tt;
     stop := Ret tt |}.

(** The constructor of the session object itself raises. *)
Definition constructor_raises (i : nat) : Attempt :=
  {| new_mumble := Raise (Exn OtherException (lit "out of resources"));
     set_callback := Ret tt;
     start := Ret tt;
     is_ready := Ret tt;
     idle := None;
     retry_sleep := Ret tt;
     stop := Ret tt |}.

(* ================================================================== *)
(** ** Further observations on traces *)

(** The calls that change the server or speak in a channel. *)
Definition is_action (ev : event) : bool :=
  match ev with
  | UserMove _ _ | UserMute _ | UserUnmute _ | UserKick _ | SendText _ _ => true
  | _ => false
  end.

Definition actions (t : trace) : trace := filter is_action t.

(** What a command text entitles [execute_command] to do: log; move, mute,
    unmute or kick a user the registry returned for one of the tokens (a move
    goes to the id of a channel the registry returned for one of the tokens);
    send the help text to the channel the home name resolves to. *)
Definition licensed (w : World) (tokens : list str) (ev : event) : Prop :=
  match ev with
  | Log _ _ => True
  | UserMove u cid =>
      exists name ch c,
        In name tokens /\ In ch tokens /\
        users_find_by_name w name = Ret (Some u) /\
        channels_find_by_name w ch = Ret (Some c) /\ cid = channel_id c
  | UserMute u | UserUnmute u | UserKick u =>
      exists name, In name tokens /\ users_find_by_name w name = Ret (Some u)
  | SendText c text =>
      text = help_message /\
      channels_find_by_name w MUMBLE_CHANNEL = Ret (Some c)
  | _ => False
  end.

(** The request [generate_response] sends for a prompt. *)
Definition request_for (prompt : str) : event :=
  HttpPost LLAMA_API_URL
    {| prompt := INSTRUCTIONS ++ lit " " ++ prompt;
       temperature := (7 # 10)%Q;
       max_tokens := 150 |} 120.

(** The status passes [raise_for_status]. *)
Definition status_passes (status : Z) : bool :=
  negb ((400 <=? status) && (status <? 600))%Z.

Definition is_dict (v : pyval) : bool :=
  match v with PDict _ => true | _ => false end.

Definition is_str (v : pyval) : bool :=
  match v with PStr _ => true | _ => false end.

(** The first step of [connect_to_mumble] that raises, if any. *)
Definition first_failure (a : Attempt) : option exn :=
  match new_mumble a, set_callback a, start a, is_ready a with
  | Raise e, _, _, _ => Some e
  | Ret _, Raise e, _, _ => Some e
  | Ret _, Ret _, Raise e, _ => Some e
  | Ret _, Ret _, Ret _, Raise e => Some e
  | Ret _, Ret _, Ret _, Ret _ => None
  end.

Definition is_connect (ev : event) : bool :=
  match ev with NewMumble _ _ _ _ => true | _ => false end.

Definition is_stop (ev : event) : bool :=
  match ev with Stop _ => true | _ => false end.

(** How often the constructor, and [stop], are called in a trace. *)
Definition connects (t : trace) : nat := length (filter is_connect t).
Definition stops (t : trace) : nat := length (filter is_stop t).

(** The connection of a pass succeeds and the idle loop is interrupted from
    the keyboard; stopping the session succeeds. *)
Definition interrupted_while_idle (a : Attempt) : bool :=
  match new_mumble a, set_callback a, start a, is_ready a, idle a, stop a with
  | Ret _, Ret _, Ret _, Ret _, Some (_, e), Ret _ => is_KeyboardInterrupt e
  | _, _, _, _, _, _ => false
  end.

(** A pass ends with an [Exception] after the session object was built:
    the connection failed, or it succeeded and the idle loop was broken by an
    error of the session. *)
Definition pass_fails (a : Attempt) : bool :=
  match new_mumble a, snd (try_body a None) with
  | Ret _, Some e => is_Exception e
  | _, _ => false
  end.

(** Sessions that connect and are lost after one second. *)
Definition dropped_sessions (i : nat) : Attempt :=
  {| new_mumble := Ret (N.of_nat i);
     set_callback := Ret tt;
     start := Ret tt;
     is_ready := Ret tt;
     idle := Some (1%nat, Exn OtherException (lit "connection lost"));
     retry_sleep := Ret tt;
     stop := Ret tt |}.

(** Four refused connections, then a session that is interrupted. *)
Definition refused_then_interrupted (i : nat) : Attempt :=
  if (i <? 4)%nat then always_refused i else interrupted_session i.

(* ================================================================== *)
(** ** Facts about the string primitives *)

Lemma str_eqb_eq (a b : str) : str_eqb a b = true <-> a = b.
Proof.
  revert b; induction a as [|x a IH]; intros [|y b]; simpl; split;
    try congruence; try reflexivity.
  - intros H. apply andb_true_iff in H as [Hx Hr].
    apply N.eqb_eq in Hx. apply IH in Hr. congruence.
  - intros H. injection H as -> ->.
    rewrite N.eqb_refl. simpl. now apply IH.
Qed.

Lemma str_eqb_neq (a b : str) : a <> b -> str_eqb a b = false.
Proof.
  intros H. destruct (str_eqb a b) eqn:E; [|reflexivity].
  apply str_eqb_eq in E. contradiction.
Qed.

Lemma startswith_app (p r : str) : startswith (p ++ r) p = true.
Proof.
  induction p as [|c p IH]; simpl; [reflexivity|].
  now rewrite N.eqb_refl.
Qed.

Lemma startswith_skipn (s p : str) :
  startswith s p = true -> s = p ++ skipn (length p) s.
Proof.
  revert s; induction p as [|c p IH]; intros s H; simpl in *; [reflexivity|].
  destruct s as [|d s]; [discriminate|].
  apply andb_true_iff in H as [Hc Hr]. apply N.eqb_eq in Hc. subst d.
  simpl. f_equal. now apply IH.
Qed.

Lemma replace_from_skip (old new p r : str) :
  replace_from old new (length p) (p ++ r) = replace_from old new 0 r.
Proof.
  induction p as [|c p IH]; simpl; [reflexivity | exact IH].
Qed.

Lemma replace_from_absent (old new r : str) :
  contains r old = false -> replace_from old new 0 r = r.
Proof.
  induction r as [|c r IH]; simpl; intros H; [reflexivity|].
  apply orb_false_iff in H as [H1 H2].
  destruct old as [|p old']; [discriminate|].
  rewrite H1. f_equal. now apply IH.
Qed.

Lemma replace_leading (old o rest : str) (c : char) :
  old = c :: o ->
  contains rest old = false ->
  replace (old ++ rest) old [] = rest.
Proof.
  intros -> H. unfold replace.
  change ((c :: o) ++ rest) with (c :: (o ++ rest)).
  cbn [replace_from].
  pose proof (startswith_app (c :: o) rest) as Hs.
  change ((c :: o) ++ rest) with (c :: (o ++ rest)) in Hs.
  rewrite Hs. cbn [app length pred].
  rewrite replace_from_skip. now apply replace_from_absent.
Qed.

Lemma rstrip_nil_split (s cur : str) :
  rstrip s = [] ->
  split_from cur s = match cur with [] => [] | _ => [cur] end.
Proof.
  revert cur; induction s as [|c s IH]; intros cur H; simpl in *;
    [reflexivity|].
  destruct (rstrip s) eqn:E; [|discriminate].
  destruct (isspace c); [|discriminate].
  rewrite (IH [] eq_refl). now destruct cur.
Qed.

Lemma split_from_rstrip (s cur : str) :
  split_from cur (rstrip s) = split_from cur s.
Proof.
  revert cur; induction s as [|c s IH]; intros cur; [reflexivity|].
  cbn [rstrip]. destruct (rstrip s) as [|r0 r] eqn:E.
  - cbn [split_from]. destruct (isspace c) eqn:Hc.
    + rewrite (rstrip_nil_split s [] E). reflexivity.
    + cbn [split_from]. rewrite Hc. cbn [split_from].
      rewrite (rstrip_nil_split s (cur ++ [c]) E).
      destruct cur; reflexivity.
  - pose proof (IH []) as I1. pose proof (IH (cur ++ [c])) as I2.
    change (split_from cur (c :: r0 :: r)) with
      (if isspace c
       then match cur with
            | [] => split_from [] (r0 :: r)
            | _ => cur :: split_from [] (r0 :: r)
            end
       else split_from (cur ++ [c]) (r0 :: r)).
    now rewrite I1, I2.
Qed.

Lemma split_from_lstrip (s : str) :
  split_from [] (lstrip s) = split_from [] s.
Proof.
  induction s as [|c s IH]; [reflexivity|].
  cbn [lstrip split_from]. destruct (isspace c) eqn:Hc; [exact IH|].
  cbn [split_from]. now rewrite Hc.
Qed.

Lemma split_strip (s : str) : split (strip s) = split s.
Proof.
  unfold split, strip. now rewrite split_from_rstrip, split_from_lstrip.
Qed.

(** When the marker occurs at the start only, the code's command text is the
    specification's. *)
Lemma command_text_single_marker (reply : str) :
  startswith reply marker = true ->
  contains (skipn (length marker) reply) marker = false ->
  command_text reply = spec_command_text reply.
Proof.
  intros Hs Hc. unfold command_text, spec_command_text.
  rewrite (startswith_skipn _ _ Hs) at 1.
  now rewrite (@replace_leading marker (tl marker) _ (hd 0%N marker) eq_refl Hc).
Qed.

Example split_on_whitespace :
  split (lit "  /move  John General ") = [lit "/move"; lit "John"; lit "General"].
Proof. reflexivity. Qed.

Example split_on_no_break_space :
  split (lit "/mute" ++ [160%N] ++ lit "Bob") = [lit "/mute"; lit "Bob"].
Proof. reflexivity. Qed.

Example replace_is_not_recursive :
  replace (lit "COMCOMMAND:MAND:x") marker [] = lit "COMMAND:x".
Proof. reflexivity. Qed.

Example replace_all_occurrences :
  replace (lit "COMMAND:COMMAND:/kick COMMAND:Bob") marker [] = lit "/kick Bob".
Proof. reflexivity. Qed.

Example strip_both_ends : strip (lit "  a b  ") = lit "a b".
Proof. reflexivity. Qed.

(* ================================================================== *)
(** ** Facts about the monad *)

Lemma bind_ret_l {A B} (a : A) (k : A -> M B) : bind (ret a) k = k a.
Proof. unfold bind, ret. now destruct (k a). Qed.

Lemma bind_logging {B} (l : level) (msg : str) (k : unit -> M B) :
  bind (logging l msg) k = (Log l msg :: fst (k tt), snd (k tt)).
Proof. unfold bind, logging. now destruct (k tt). Qed.

Section Respects.

Variables PX1 PX2 : exn -> Prop.

Lemma respects_ret {A} (a : A) : respects PX1 (ret a).
Proof. split; [constructor | exact I]. Qed.

Lemma respects_raise {A} (e : exn) : PX1 e -> respects PX1 (@raise A e).
Proof. split; [constructor | assumption]. Qed.

Lemma respects_logging (l : level) (msg : str) : respects PX1 (logging l msg).
Proof. split; [repeat constructor | exact I]. Qed.

Lemma respects_ask {A} (r : result A) :
  raises_within PX1 r -> respects PX1 (ask r).
Proof. split; [constructor | assumption]. Qed.

Lemma respects_call {A} (ev : event) (r : result A) :
  is_post ev = false -> raises_within PX1 r -> respects PX1 (call ev r).
Proof. split; [repeat constructor | ]; assumption. Qed.

Lemma respects_bind {A B} (m : M A) (k : A -> M B) :
  respects PX1 m -> (forall a, respects PX1 (k a)) -> respects PX1 (bind m k).
Proof.
  destruct m as [t [a|e]]; intros [Ht Hr] Hk; simpl in *.
  - destruct (Hk a) as [Ht' Hr']. destruct (k a) as [t' r']; simpl in *.
    split; [apply Forall_app; split|]; assumption.
  - split; assumption.
Qed.

Lemma respects_try_except {A} (body : M A) (catches : exn -> bool)
    (handler : exn -> M A) :
  respects PX1 body ->
  (forall e, PX1 e -> catches e = true -> respects PX2 (handler e)) ->
  (forall e, PX1 e -> catches e = false -> PX2 e) ->
  respects PX2 (try_except body catches handler).
Proof.
  destruct body as [t [a|e]]; intros [Ht Hr] Hh Hp; simpl in *.
  - split; [assumption | exact I].
  - destruct (catches e) eqn:Hc.
    + destruct (Hh e Hr Hc) as [Ht' Hr'].
      destruct (handler e) as [t' r']; simpl in *.
      split; [apply Forall_app; split|]; assumption.
    + split; [assumption | now apply Hp].
Qed.

End Respects.

Lemma respects_index (PX : exn -> Prop) {A} (l : list A) (i : nat) :
  PX (Exn IndexError (lit "list index out of range")) ->
  respects PX (index l i).
Proof.
  intros H. unfold index. destruct (nth_error l i).
  - apply respects_ret.
  - now apply respects_raise.
Qed.

Section CallbackRespects.

Variable PX : exn -> Prop.
Variable w : World.
Hypothesis builtin : holds_builtin PX.
Hypothesis world : world_within PX w.

Ltac step :=
  first
    [ apply respects_ret
    | apply respects_logging
    | apply respects_raise; apply builtin
    | apply respects_index; apply builtin
    | apply respects_ask; apply world
    | apply respects_call; [reflexivity | apply world]
    | apply respects_bind; [|intros ?]
    | match goal with
      | |- respects _ (match ?x with _ => _ end) => destruct x
      end ].

Lemma send_to_channel_respects (name text : str) :
  respects PX (send_to_channel w name text).
Proof. unfold send_to_channel. repeat step. Qed.

Lemma branches_respect :
  (forall u c, respects PX (move_branch w u c)) /\
  (forall u, respects PX (mute_branch w u)) /\
  (forall u, respects PX (unmute_branch w u)) /\
  (forall u, respects PX (kick_branch w u)) /\
  respects PX (help_branch w) /\
  (forall c, respects PX (invalid_branch c)).
Proof.
  unfold move_branch, mute_branch, unmute_branch, kick_branch, help_branch,
    invalid_branch.
  repeat match goal with |- _ /\ _ => split end; intros; repeat step;
    apply send_to_channel_respects.
Qed.

Lemma command_body_respects (lower : str -> str) (command : str) :
  respects PX
    (if startswith command marker
     then
       let command := strip (replace command marker []) in
       let parts := split command in
       first <- index parts 0 ;;
       let action := lower first in
       if str_eqb action (lit "/move") && (length parts =? 3)%nat
       then username <- index parts 1 ;;
            channel <- index parts 2 ;;
            move_branch w username channel
       else if str_eqb action (lit "/mute") && (length parts =? 2)%nat
       then username <- index parts 1 ;;
            mute_branch w username
       else if str_eqb action (lit "/unmute") && (length parts =? 2)%nat
       then username <- index parts 1 ;;
            unmute_branch w username
       else if str_eqb action (lit "/kick") && (length parts =? 2)%nat
       then username <- index parts 1 ;;
            kick_branch w username
       else if str_eqb action (lit "/help")
       then help_branch w
       else invalid_branch command
     else ret tt).
Proof.
  destruct branches_respect as (Hmove & Hmute & Hunmute & Hkick & Hhelp & Hinv).
  cbv zeta.
  repeat first
    [ apply Hmove | apply Hmute | apply Hunmute | apply Hkick | apply Hhelp
    | apply Hinv | step ].
Qed.

End CallbackRespects.

Lemma builtin_is_Exception : holds_builtin (fun e => is_Exception e = true).
Proof. split; [reflexivity | intros; reflexivity]. Qed.

Lemma builtin_any : holds_builtin (fun _ => True).
Proof. split; [exact I | intros; exact I]. Qed.

Lemma world_within_any (w : World) : world_within (fun _ => True) w.
Proof.
  split; intros;
    match goal with |- raises_within _ ?r => destruct r; exact I end.
Qed.

(** The handler of [execute_command] catches every [Exception]. *)
Lemma guarded_returns (m : M unit) :
  respects (fun e => is_Exception e = true) m -> exists t, guarded m = (t, Ret tt).
Proof.
  destruct m as [t [[]|e]]; intros [_ H]; simpl in *.
  - now exists t.
  - unfold guarded, try_except. rewrite H. simpl. eauto.
Qed.

Lemma guarded_respects (m : M unit) :
  respects (fun _ => True) m -> respects (fun _ => True) (guarded m).
Proof.
  intros H. unfold guarded.
  apply respects_try_except with (PX1 := fun _ => True);
    [assumption | | trivial].
  intros e _ _. apply respects_logging.
Qed.

(* ================================================================== *)
(** ** Which branch of execute_command runs *)

Section Dispatch.

Variable lower : str -> str.
Variable w : World.

Ltac enter_command reply Hs Hp :=
  unfold execute_command; rewrite Hs; fold (command_text reply);
  cbv zeta; rewrite Hp; cbn [index nth_error]; rewrite bind_ret_l.

Lemma runs_move (reply verb u c : str) :
  startswith reply marker = true ->
  split (command_text reply) = [verb; u; c] ->
  lower verb = lit "/move" ->
  execute_command lower w reply = guarded (move_branch w u c).
Proof.
  intros Hs Hp Hv. enter_command reply Hs Hp. rewrite Hv.
  cbn [index nth_error]. now rewrite !bind_ret_l.
Qed.

Lemma runs_mute (reply verb u : str) :
  startswith reply marker = true ->
  split (command_text reply) = [verb; u] ->
  lower verb = lit "/mute" ->
  execute_command lower w reply = guarded (mute_branch w u).
Proof.
  intros Hs Hp Hv. enter_command reply Hs Hp. rewrite Hv.
  cbn [index nth_error]. now rewrite !bind_ret_l.
Qed.

Lemma runs_unmute (reply verb u : str) :
  startswith reply marker = true ->
  split (command_text reply) = [verb; u] ->
  lower verb = lit "/unmute" ->
  execute_command lower w reply = guarded (unmute_branch w u).
Proof.
  intros Hs Hp Hv. enter_command reply Hs Hp. rewrite Hv.
  cbn [index nth_error]. now rewrite !bind_ret_l.
Qed.

Lemma runs_kick (reply verb u : str) :
  startswith reply marker = true ->
  split (command_text reply) = [verb; u] ->
  lower verb = lit "/kick" ->
  execute_command lower w reply = guarded (kick_branch w u).
Proof.
  intros Hs Hp Hv. enter_command reply Hs Hp. rewrite Hv.
  cbn [index nth_error]. now rewrite !bind_ret_l.
Qed.

(** The [/help] branch does not look at the number of tokens. *)
Lemma runs_help (reply verb : str) (args : list str) :
  startswith reply marker = true ->
  split (command_text reply) = verb :: args ->
  lower verb = lit "/help" ->
  execute_command lower w reply = guarded (help_branch w).
Proof.
  intros Hs Hp Hv. enter_command reply Hs Hp. now rewrite Hv.
Qed.

End Dispatch.

(* ================================================================== *)
(** ** Rejected commands *)

Section Rejection.

Variable lower : str -> str.
Variable w : World.

Lemma runs_invalid (reply verb : str) (args : list str) :
  startswith reply marker = true ->
  split (command_text reply) = verb :: args ->
  str_eqb (lower verb) (lit "/help") = false ->
  spec_well_formed (lower verb) (length args) = false ->
  execute_command lower w reply =
  ([Log ERROR (lit "Invalid command: " ++ command_text reply)], Ret tt).
Proof.
  intros Hs Hp Hh Hw.
  unfold execute_command; rewrite Hs; fold (command_text reply).
  cbv zeta; rewrite Hp; cbn [index nth_error]; rewrite bind_ret_l.
  unfold spec_well_formed, spec_arity in Hw. rewrite Hh in *.
  cbn [length Nat.eqb].
  destruct (str_eqb (lower verb) (lit "/move")) eqn:E1.
  { rewrite Hw. apply str_eqb_eq in E1. rewrite E1. reflexivity. }
  destruct (str_eqb (lower verb) (lit "/mute")) eqn:E2.
  { rewrite Hw. apply str_eqb_eq in E2. rewrite E2. reflexivity. }
  destruct (str_eqb (lower verb) (lit "/unmute")) eqn:E3.
  { rewrite Hw. apply str_eqb_eq in E3. rewrite E3. reflexivity. }
  destruct (str_eqb (lower verb) (lit "/kick")) eqn:E4.
  { rewrite Hw. reflexivity. }
  reflexivity.
Qed.

End Rejection.

(* ================================================================== *)
(** ** Command parsing: claims C2, C3 and C7 *)

(** When the marker occurs at the start only, every recognized verb with the
    number of arguments its row asks for runs its branch on the argument
    tokens, verbatim and in order. *)
Lemma recognized_single_marker (lower : str -> str) (w : World)
    (reply verb : str) (args : list str) :
  startswith reply marker = true ->
  contains (skipn (length marker) reply) marker = false ->
  spec_tokens reply = verb :: args ->
  (lower verb = lit "/move" -> forall u c, args = [u; c] ->
     execute_command lower w reply = guarded (move_branch w u c)) /\
  (lower verb = lit "/mute" -> forall u, args = [u] ->
     execute_command lower w reply = guarded (mute_branch w u)) /\
  (lower verb = lit "/unmute" -> forall u, args = [u] ->
     execute_command lower w reply = guarded (unmute_branch w u)) /\
  (lower verb = lit "/kick" -> forall u, args = [u] ->
     execute_command lower w reply = guarded (kick_branch w u)) /\
  (lower verb = lit "/help" ->
     execute_command lower w reply = guarded (help_branch w)).
Proof.
  intros Hs Hc Hp. unfold spec_tokens in Hp.
  rewrite <- (command_text_single_marker _ Hs Hc) in Hp.
  repeat split.
  - intros Hv u c ->. now apply runs_move with verb.
  - intros Hv u ->. now apply runs_mute with verb.
  - intros Hv u ->. now apply runs_unmute with verb.
  - intros Hv u ->. now apply runs_kick with verb.
  - intros Hv. now apply runs_help with verb args.
Qed.

(** C2 (the code departs from the claim).  The reply
    [COMMAND:/mute COMMAND:Bob] starts with the marker, its first post-marker
    token is [/mute] and exactly one argument follows, [COMMAND:Bob]; the
    claim asks for Mute with that argument verbatim.  The code deletes the
    second marker as well and mutes the user named [Bob], although a user
    named [COMMAND:Bob] is registered. *)
Theorem C2_argument_not_verbatim :
  let reply := lit "COMMAND:/mute COMMAND:Bob" in
  let w := demo_world (answers "") in
  startswith reply marker = true /\
  spec_tokens reply = [lit "/mute"; lit "COMMAND:Bob"] /\
  spec_well_formed (ascii_lower (lit "/mute")) 1 = true /\
  execute_command ascii_lower w reply = guarded (mute_branch w (lit "Bob")) /\
  execute_command ascii_lower w reply =
    ([UserMute 7%N; Log INFO (lit "Muted Bob.")], Ret tt) /\
  guarded (mute_branch w (lit "COMMAND:Bob")) =
    ([UserMute 8%N; Log INFO (lit "Muted COMMAND:Bob.")], Ret tt).
Proof. repeat split; reflexivity. Qed.

(** C3, as stated, fails.  [COMMAND:/help me] carries the verb [/help] with
    one argument where the table asks for none, yet the help text is sent;
    [COMMAND:COMMAND:/mute Bob] has the unrecognized first token
    [COMMAND:/mute], yet Bob is muted. *)
Lemma C3_help_with_arguments_runs :
  let w := demo_world (answers "") in
  (let reply := lit "COMMAND:/help me" in
   startswith reply marker = true /\
   spec_tokens reply = [lit "/help"; lit "me"] /\
   spec_well_formed (ascii_lower (lit "/help")) 1 = false /\
   execute_command ascii_lower w reply =
     ([SendText (Channel 0) help_message;
       Log INFO (lit "Displayed help message.")], Ret tt)) /\
  (let reply := lit "COMMAND:COMMAND:/mute Bob" in
   startswith reply marker = true /\
   spec_tokens reply = [lit "COMMAND:/mute"; lit "Bob"] /\
   spec_well_formed (ascii_lower (lit "COMMAND:/mute")) 1 = false /\
   execute_command ascii_lower w reply =
     ([UserMute 7%N; Log INFO (lit "Muted Bob.")], Ret tt)).
Proof. repeat split; reflexivity. Qed.

(** C3, amended.  For every reply that starts with the marker and does not
    contain it again, whose verb is not [/help] and is either unrecognized or
    followed by a number of arguments other than the one its row asks for,
    the only effect is the error record [Invalid command: ...] carrying the
    trimmed post-marker text: no moderation call, no send. *)
Theorem C3_invalid_command_rejected (lower : str -> str) (w : World)
    (reply verb : str) (args : list str) :
  startswith reply marker = true ->
  contains (skipn (length marker) reply) marker = false ->
  spec_tokens reply = verb :: args ->
  str_eqb (lower verb) (lit "/help") = false ->
  spec_well_formed (lower verb) (length args) = false ->
  execute_command lower w reply =
  ([Log ERROR (lit "Invalid command: " ++ spec_command_text reply)], Ret tt).
Proof.
  intros Hs Hc Hp Hh Hw. unfold spec_tokens in Hp.
  rewrite <- (command_text_single_marker _ Hs Hc) in *.
  now apply runs_invalid with verb args.
Qed.

Lemma C3_invalid_command_rejected_witness :
  execute_command ascii_lower (demo_world (answers "")) (lit "COMMAND:/mute") =
  ([Log ERROR (lit "Invalid command: /mute")], Ret tt).
Proof.
  exact (@C3_invalid_command_rejected ascii_lower (demo_world (answers ""))
           (lit "COMMAND:/mute") (lit "/mute") []
           eq_refl eq_refl eq_refl eq_refl eq_refl).
Defined.

(** C7 (the code departs from the claim).  On [COMMAND:/kick COMMAND:Bob] the
    reply with the leading marker removed and trimmed is
    [/kick COMMAND:Bob]; the text the code tokenizes is [/kick Bob], the
    second marker gone, and the user named [Bob] is kicked. *)
Theorem C7_later_markers_removed :
  let reply := lit "COMMAND:/kick COMMAND:Bob" in
  startswith reply marker = true /\
  spec_command_text reply = lit "/kick COMMAND:Bob" /\
  command_text reply = lit "/kick Bob" /\
  split (command_text reply) = [lit "/kick"; lit "Bob"] /\
  execute_command ascii_lower (demo_world (answers "")) reply =
    ([UserKick 7%N; Log INFO (lit "Kicked Bob.")], Ret tt).
Proof. repeat split; reflexivity. Qed.

(* ================================================================== *)
(** ** The generation client: claim C1 *)

(** C1, as stated, fails.  A body that decodes to a list, or to an object
    whose content is [null], makes [generate_response] raise
    [AttributeError], which the callback does not catch either; a response
    with status 300 and a good body is returned as generated text. *)
Lemma C1_generate_can_raise :
  let request :=
    HttpPost LLAMA_API_URL
      {| prompt := INSTRUCTIONS ++ lit " " ++ lit "hi";
         temperature := (7 # 10)%Q; max_tokens := 150 |} 120 in
  generate_response
    (demo_world (Ret (Response 200 (Json (PList [PInt 1]))))) (lit "hi") =
    ([request],
     Raise (Exn AttributeError (lit "'list' object has no attribute 'get'"))) /\
  generate_response
    (demo_world (Ret (Response 200 (Json (PDict [(lit "content", PNone)])))))
    (lit "hi") =
    ([request],
     Raise (Exn AttributeError
                (lit "'NoneType' object has no attribute 'strip'"))) /\
  snd (on_message_received ascii_lower
         (demo_world (Ret (Response 200 (Json (PList [PInt 1])))))
         {| actor := lit "Alice"; message := lit "hi" |}) =
    Raise (Exn AttributeError (lit "'list' object has no attribute 'get'")) /\
  generate_response
    (demo_world
       (Ret (Response 300 (Json (PDict [(lit "content", PStr (lit "Sure"))])))))
    (lit "hi") =
    ([request], Ret (Some (lit "Sure"))).
Proof. repeat split; reflexivity. Qed.

(** C1, amended.  When the HTTP call raises a [RequestException]
    (connection refused, timeout), the status is 4xx or 5xx, the body is not
    JSON, the decoded body is falsy, or it is an object whose content is
    absent or a blank string, [generate_response] returns, without raising,
    a result that stands for Failure. *)
Theorem C1_failures_return_Failure (w : World) (prompt : str) :
  transport_failure (backend_answer w prompt) = true \/
  text_missing (backend_answer w prompt) = true ->
  exists t r, generate_response w prompt = (t, Ret r) /\ is_Failure r = true.
Proof.
  unfold generate_response, backend_answer, call.
  destruct (requests_post w _ _ _) as [[status [|v]]|e]; cbn -[Z.leb Z.ltb strip].
  - intros _. unfold raise_for_status. cbn -[Z.leb Z.ltb].
    destruct ((400 <=? status) && (status <? 600))%Z; cbn; eauto.
  - unfold raise_for_status. cbn -[Z.leb Z.ltb strip].
    destruct ((400 <=? status) && (status <? 600))%Z; cbn -[strip];
      [eauto|].
    intros [H|H]; [discriminate|].
    destruct (truthy v) eqn:Hv; cbn -[strip] in *; [|eauto].
    destruct v as [| | | | |l|items]; try discriminate.
    cbn -[strip]. destruct (dict_lookup items _) as [[| | | |s| |]|];
      try discriminate; cbn -[strip]; eauto.
  - intros [H|H]; [|discriminate]. rewrite H. cbn. eauto.
Qed.

Lemma C1_failures_return_Failure_witness :
  exists t r,
    generate_response
      (demo_world (Raise (Exn Timeout (lit "Read timed out."))))
      (lit "hi") = (t, Ret r)
    /\ is_Failure r = true.
Proof.
  apply (@C1_failures_return_Failure
           (demo_world (Raise (Exn Timeout (lit "Read timed out."))))
           (lit "hi")).
  left. reflexivity.
Defined.

(* ================================================================== *)
(** ** The executor: claim C5 *)

(** C5.  Whatever text is handed to [execute_command], it returns normally:
    every exception raised inside is caught and logged.  In particular a
    mute, unmute or kick whose username the registry does not resolve, and a
    move whose username or channel it does not resolve, has one effect only,
    an error record: no moderation call is made.  When the lookups return
    [None] the record says what was not found. *)
Theorem C5_executor_never_propagates (lower : str -> str) (w : World)
    (command : str) :
  orderly w ->
  (exists t, execute_command lower w command = (t, Ret tt)) /\
  (forall verb username,
      startswith command marker = true ->
      split (command_text command) = [verb; username] ->
      lower verb = lit "/mute" \/ lower verb = lit "/unmute"
        \/ lower verb = lit "/kick" ->
      resolved (users_find_by_name w username) = false ->
      exists msg,
        execute_command lower w command = ([Log ERROR msg], Ret tt) /\
        (users_find_by_name w username = Ret None ->
         msg = lit "User " ++ username ++ lit " not found.")) /\
  (forall verb username channel,
      startswith command marker = true ->
      split (command_text command) = [verb; username; channel] ->
      lower verb = lit "/move" ->
      resolved (users_find_by_name w username) = false
        \/ resolved (channels_find_by_name w channel) = false ->
      exists msg,
        execute_command lower w command = ([Log ERROR msg], Ret tt) /\
        (forall u c,
            users_find_by_name w username = Ret u ->
            channels_find_by_name w channel = Ret c ->
            msg = lit "User " ++ username ++ lit " or channel " ++ channel
                      ++ lit " not found.")).
Proof.
  intros Hw. split; [|split].
  - apply guarded_returns.
    apply command_body_respects; [apply builtin_is_Exception | exact Hw].
  - intros verb username Hs Hp Hv Hu.
    pose proof (within_users Hw username) as Hx.
    destruct Hv as [Hv|[Hv|Hv]];
      [ rewrite (runs_mute lower w _ Hs Hp Hv); unfold mute_branch
      | rewrite (runs_unmute lower w _ Hs Hp Hv); unfold unmute_branch
      | rewrite (runs_kick lower w _ Hs Hp Hv); unfold kick_branch ];
      (destruct (users_find_by_name w username) as [[u|]|e];
       [ discriminate
       | eexists; split; [reflexivity | reflexivity]
       | cbn in Hx; unfold guarded, try_except; cbn; rewrite Hx;
         eexists; split; [reflexivity | discriminate] ]).
  - intros verb username channel Hs Hp Hv Hnone.
    pose proof (within_users Hw username) as Hx.
    pose proof (within_channels Hw channel) as Hy.
    rewrite (runs_move lower w _ Hs Hp Hv). unfold move_branch.
    destruct (users_find_by_name w username) as [u|e].
    2:{ cbn in Hx. unfold guarded, try_except. cbn. rewrite Hx.
        eexists; split; [reflexivity | discriminate]. }
    destruct (channels_find_by_name w channel) as [c|e].
    2:{ cbn in Hy. unfold guarded, try_except. cbn. rewrite Hy.
        eexists; split; [reflexivity | discriminate]. }
    destruct u as [u|]; [destruct c as [c|]|].
    + destruct Hnone; discriminate.
    + eexists; split; reflexivity.
    + eexists; split; reflexivity.
Qed.

Lemma demo_world_orderly (reply : result response) :
  raises_within (fun e => is_Exception e = true) reply ->
  orderly (demo_world reply).
Proof. intros H. split; intros; simpl; trivial. Qed.

Lemma C5_executor_never_propagates_witness :
  (exists t,
     execute_command ascii_lower (demo_world (answers ""))
       (lit "COMMAND:/kick Zed") = (t, Ret tt)) /\
  (exists msg,
     execute_command ascii_lower (demo_world (answers ""))
       (lit "COMMAND:/kick Zed") = ([Log ERROR msg], Ret tt) /\
     (Ret (demo_users (lit "Zed")) = Ret None ->
      msg = lit "User " ++ lit "Zed" ++ lit " not found.")).
Proof.
  destruct (@C5_executor_never_propagates ascii_lower
              (demo_world (answers "")) (lit "COMMAND:/kick Zed")
              (demo_world_orderly (answers "") I)) as (H1 & H2 & _).
  split; [exact H1|].
  apply (H2 (lit "/kick") (lit "Zed") eq_refl eq_refl);
    [right; right; reflexivity | reflexivity].
Defined.

(* ================================================================== *)
(** ** The dispatcher: claims C6, C8 and C10 *)

Lemma call_bind_cons {A B} (ev : event) (r : result A) (k : A -> M B) :
  bind (call ev r) k = (ev :: fst (bind (ask r) k), snd (bind (ask r) k)).
Proof. unfold bind, call, ask. destruct r; [destruct (k a)|]; reflexivity. Qed.

Lemma try_except_cons {A} (ev : event) (t : trace) (r : result A)
    (catches : exn -> bool) (handler : exn -> M A) :
  try_except (ev :: t, r) catches handler =
  (ev :: fst (try_except (t, r) catches handler),
   snd (try_except (t, r) catches handler)).
Proof.
  unfold try_except. destruct r; [reflexivity|].
  destruct (catches e); [destruct (handler e)|]; reflexivity.
Qed.

(** The request is the first thing [generate_response] does and the only
    one it sends. *)
Lemma generate_response_request (w : World) (text : str) :
  exists t r,
    generate_response w text =
    (HttpPost LLAMA_API_URL
       {| prompt := INSTRUCTIONS ++ lit " " ++ text;
          temperature := (7 # 10)%Q; max_tokens := 150 |} 120 :: t, r)
    /\ Forall (fun ev => is_post ev = false) t.
Proof.
  unfold generate_response. cbv zeta. rewrite call_bind_cons.
  set (rest := bind (ask _) _).
  destruct rest as [t r] eqn:E. cbn [fst snd]. rewrite try_except_cons.
  do 2 eexists. split; [reflexivity|].
  rewrite <- E. subst rest.
  apply (@respects_try_except (fun _ => True) (fun _ => True)); [| |trivial].
  - apply respects_bind; [apply respects_ask; now destruct (requests_post _ _ _ _)|].
    intros resp. apply respects_bind.
    { unfold raise_for_status. destruct (_ && _)%bool;
        [now apply respects_raise | apply respects_ret]. }
    intros _. apply respects_bind.
    { unfold response_json. destruct (content resp);
        [now apply respects_raise | apply respects_ret]. }
    intros cond. destruct (truthy cond); [|apply respects_ret].
    apply respects_bind.
    { unfold response_json. destruct (content resp);
        [now apply respects_raise | apply respects_ret]. }
    intros j. apply respects_bind.
    { unfold py_get. destruct j; try (now apply respects_raise).
      destruct (dict_lookup _ _); apply respects_ret. }
    intros c. apply respects_bind; [|intros; apply respects_ret].
    unfold py_strip. destruct c; try (now apply respects_raise).
    apply respects_ret.
  - intros e _ _. apply respects_bind; [apply respects_logging|].
    intros; apply respects_ret.
Qed.

(** What follows the generation call in the callback sends no request. *)
Lemma dispatch_respects (lower : str -> str) (w : World)
    (response : option str) :
  respects (fun _ => True)
    (match response with
     | Some ((_ :: _) as response) =>
         logging INFO (lit "Generated response: " ++ response) ;;
         if startswith response marker
         then execute_command lower w response
         else
           try_except
             (send_to_channel w MUMBLE_CHANNEL response)
             is_Exception
             (fun e =>
                logging ERROR
                  (lit "Failed to send message to Mumble: " ++ exn_msg e))
     | _ => logging WARNING (lit "No response generated or API request failed.")
     end).
Proof.
  destruct response as [[|c r]|]; try apply respects_logging.
  apply respects_bind; [apply respects_logging|]. intros _.
  destruct (startswith (c :: r) marker).
  - apply guarded_respects, command_body_respects;
      [apply builtin_any | apply world_within_any].
  - apply (@respects_try_except (fun _ => True) (fun _ => True)); [| |trivial].
    + apply send_to_channel_respects; [apply builtin_any | apply world_within_any].
    + intros e _ _. apply respects_logging.
Qed.

(** The scenarios of the specification, run on the concrete world. *)
Example move_scenario :
  on_message_received ascii_lower
    (demo_world (answers "COMMAND:/move Alice Lounge"))
    {| actor := lit "Bob"; message := lit "Please move Alice to Lounge" |} =
  ([Log INFO (lit "Received message from Bob: Please move Alice to Lounge");
    HttpPost LLAMA_API_URL
      {| prompt := INSTRUCTIONS ++ lit " Please move Alice to Lounge";
         temperature := (7 # 10)%Q; max_tokens := 150 |} 120;
    Log INFO (lit "Generated response: COMMAND:/move Alice Lounge");
    UserMove 3%N 2%N;
    Log INFO (lit "Moved Alice to Lounge.")],
   Ret tt).
Proof. reflexivity. Qed.

Example unknown_channel_scenario :
  on_message_received ascii_lower
    (demo_world (answers "COMMAND:/MOVE Alice Attic"))
    {| actor := lit "Bob"; message := lit "move Alice" |} =
  ([Log INFO (lit "Received message from Bob: move Alice");
    HttpPost LLAMA_API_URL
      {| prompt := INSTRUCTIONS ++ lit " move Alice";
         temperature := (7 # 10)%Q; max_tokens := 150 |} 120;
    Log INFO (lit "Generated response: COMMAND:/MOVE Alice Attic");
    Log ERROR (lit "User Alice or channel Attic not found.")],
   Ret tt).
Proof. reflexivity. Qed.

Example timeout_scenario :
  on_message_received ascii_lower
    (demo_world (Raise (Exn Timeout (lit "Read timed out."))))
    {| actor := lit "Bob"; message := lit "hello" |} =
  ([Log INFO (lit "Received message from Bob: hello");
    HttpPost LLAMA_API_URL
      {| prompt := INSTRUCTIONS ++ lit " hello";
         temperature := (7 # 10)%Q; max_tokens := 150 |} 120;
    Log ERROR (lit "Failed to generate response: Read timed out.");
    Log WARNING (lit "No response generated or API request failed.")],
   Ret tt).
Proof. reflexivity. Qed.

(** C6.  A generated reply that does not start with the marker is sent,
    unchanged, to the channel the configured home name resolves to; when the
    lookup or the send fails the failure is logged; in every case the
    callback returns normally. *)
Theorem C6_plain_reply_sent_verbatim (lower : str -> str) (w : World)
    (m : ChatMessage) (t : trace) (reply : str) :
  orderly w ->
  str_eqb (actor m) MUMBLE_USERNAME = false ->
  generate_response w (strip (message m)) = (t, Ret (Some reply)) ->
  nonempty reply = true ->
  startswith reply marker = false ->
  on_message_received lower w m =
  (Log INFO (lit "Received message from " ++ actor m ++ lit ": "
                 ++ strip (message m))
     :: t
     ++ Log INFO (lit "Generated response: " ++ reply)
     :: match channels_find_by_name w MUMBLE_CHANNEL with
        | Ret (Some home) =>
            SendText home reply
              :: match send_text_message w home reply with
                 | Ret _ => []
                 | Raise e =>
                     [Log ERROR (lit "Failed to send message to Mumble: "
                                     ++ exn_msg e)]
                 end
        | Ret None =>
            [Log ERROR
               (lit "Failed to send message to Mumble: "
                    ++ lit "'NoneType' object has no attribute 'send_text_message'")]
        | Raise e =>
            [Log ERROR (lit "Failed to send message to Mumble: " ++ exn_msg e)]
        end,
   Ret tt).
Proof.
  intros Hw Ha Hg Hn Hs. unfold on_message_received. rewrite Ha.
  rewrite bind_logging, Hg. destruct reply as [|c r]; [discriminate|].
  cbn [bind fst snd]. rewrite bind_logging, Hs.
  unfold send_to_channel, ask, try_except.
  pose proof (within_channels Hw MUMBLE_CHANNEL) as Hc.
  destruct (channels_find_by_name w MUMBLE_CHANNEL) as [[home|]|e];
    cbn [bind fst snd raises_within] in *.
  - pose proof (within_send Hw home (c :: r)) as Hd.
    unfold call. unfold ret.
    destruct (send_text_message w home (c :: r)) as [[]|e];
      cbn [fst snd raises_within app] in *; [reflexivity|].
    rewrite Hd. reflexivity.
  - reflexivity.
  - rewrite Hc. reflexivity.
Qed.

Lemma C6_plain_reply_sent_verbatim_witness :
  on_message_received ascii_lower (demo_world (answers "Sure, happy to help!"))
    {| actor := lit "Alice"; message := lit " hello " |} =
  ([Log INFO (lit "Received message from Alice: hello");
    HttpPost LLAMA_API_URL
      {| prompt := INSTRUCTIONS ++ lit " hello";
         temperature := (7 # 10)%Q; max_tokens := 150 |} 120;
    Log INFO (lit "Generated response: Sure, happy to help!");
    SendText (Channel 0) (lit "Sure, happy to help!")],
   Ret tt).
Proof.
  exact (@C6_plain_reply_sent_verbatim ascii_lower
           (demo_world (answers "Sure, happy to help!"))
           {| actor := lit "Alice"; message := lit " hello " |}
           _ (lit "Sure, happy to help!")
           (demo_world_orderly (answers "Sure, happy to help!") I)
           eq_refl eq_refl eq_refl eq_refl).
Defined.

(** C8.  A message whose author is the bot's own username has no effect at
    all: no log record, no request to the backend, no send. *)
Theorem C8_own_messages_ignored (lower : str -> str) (w : World)
    (m : ChatMessage) :
  actor m = MUMBLE_USERNAME ->
  on_message_received lower w m = ([], Ret tt).
Proof.
  intros H. unfold on_message_received.
  now rewrite (proj2 (str_eqb_eq _ _) H).
Qed.

Lemma C8_own_messages_ignored_witness :
  on_message_received ascii_lower (demo_world (answers "COMMAND:/kick Bob"))
    {| actor := lit "ChatBot"; message := lit "kick Bob" |} = ([], Ret tt).
Proof.
  apply (@C8_own_messages_ignored ascii_lower
           (demo_world (answers "COMMAND:/kick Bob"))
           {| actor := lit "ChatBot"; message := lit "kick Bob" |}).
  reflexivity.
Defined.

(** C10.  For a message of any other author the callback logs the trimmed
    text and then sends one request, the only one, whose prompt is the
    preamble, one space and the trimmed text. *)
Theorem C10_prompt_is_preamble_and_trimmed_text (lower : str -> str)
    (w : World) (m : ChatMessage) :
  actor m <> MUMBLE_USERNAME ->
  exists rest outcome,
    on_message_received lower w m =
    (Log INFO (lit "Received message from " ++ actor m ++ lit ": "
                   ++ strip (message m))
       :: HttpPost LLAMA_API_URL
            {| prompt := INSTRUCTIONS ++ lit " " ++ strip (message m);
               temperature := (7 # 10)%Q; max_tokens := 150 |} 120
       :: rest,
     outcome)
    /\ Forall (fun ev => is_post ev = false) rest.
Proof.
  intros Ha. unfold on_message_received. rewrite (str_eqb_neq Ha).
  rewrite bind_logging.
  destruct (generate_response_request w (strip (message m)))
    as (t & r & -> & Ht).
  destruct r as [response|e]; cbn [bind fst snd].
  - destruct (dispatch_respects lower w response) as [Hd _].
    destruct (match response with Some (_ :: _) => _ | _ => _ end)
      as [t' r'].
    cbn [fst snd app] in *. do 2 eexists. split; [reflexivity|].
    apply Forall_app. now split.
  - do 2 eexists. split; [reflexivity | exact Ht].
Qed.

Lemma C10_prompt_is_preamble_and_trimmed_text_witness :
  exists rest outcome,
    on_message_received ascii_lower (demo_world (answers "Hello!"))
      {| actor := lit "Alice"; message := lit "  hi there  " |} =
    (Log INFO (lit "Received message from Alice: hi there")
       :: HttpPost LLAMA_API_URL
            {| prompt := INSTRUCTIONS ++ lit " hi there";
               temperature := (7 # 10)%Q; max_tokens := 150 |} 120
       :: rest,
     outcome)
    /\ Forall (fun ev => is_post ev = false) rest.
Proof.
  apply (@C10_prompt_is_preamble_and_trimmed_text ascii_lower
           (demo_world (answers "Hello!"))
           {| actor := lit "Alice"; message := lit "  hi there  " |}).
  discriminate.
Defined.

(* ================================================================== *)
(** ** The connection supervisor: claims C4 and C9 *)

Example refused_run :
  main always_refused =
  ([NewMumble MUMBLE_SERVER MUMBLE_USERNAME MUMBLE_PORT MUMBLE_PASSWORD;
    SetCallback 0%N (lit "text_received"); Start 0%N;
    Log ERROR (lit "Failed to connect to Mumble server: Connection refused");
    Log ERROR (lit "Unexpected error: Connection refused");
    Log INFO (lit "Retrying connection... (Attempt 2 of 5)");
    Sleep 5; Stop 0%N;
    NewMumble MUMBLE_SERVER MUMBLE_USERNAME MUMBLE_PORT MUMBLE_PASSWORD;
    SetCallback 1%N (lit "text_received"); Start 1%N;
    Log ERROR (lit "Failed to connect to Mumble server: Connection refused");
    Log ERROR (lit "Unexpected error: Connection refused");
    Log INFO (lit "Retrying connection... (Attempt 3 of 5)");
    Sleep 5; Stop 1%N;
    NewMumble MUMBLE_SERVER MUMBLE_USERNAME MUMBLE_PORT MUMBLE_PASSWORD;
    SetCallback 2%N (lit "text_received"); Start 2%N;
    Log ERROR (lit "Failed to connect to Mumble server: Connection refused");
    Log ERROR (lit "Unexpected error: Connection refused");
    Log INFO (lit "Retrying connection... (Attempt 4 of 5)");
    Sleep 5; Stop 2%N;
    NewMumble MUMBLE_SERVER MUMBLE_USERNAME MUMBLE_PORT MUMBLE_PASSWORD;
    SetCallback 3%N (lit "text_received"); Start 3%N;
    Log ERROR (lit "Failed to connect to Mumble server: Connection refused");
    Log ERROR (lit "Unexpected error: Connection refused");
    Log INFO (lit "Retrying connection... (Attempt 5 of 5)");
    Sleep 5; Stop 3%N;
    NewMumble MUMBLE_SERVER MUMBLE_USERNAME MUMBLE_PORT MUMBLE_PASSWORD;
    SetCallback 4%N (lit "text_received"); Start 4%N;
    Log ERROR (lit "Failed to connect to Mumble server: Connection refused");
    Log ERROR (lit "Unexpected error: Connection refused");
    Log ERROR (lit "Max retry attempts reached. Exiting.");
    Stop 4%N],
   Some 4%N, Exit).
Proof. reflexivity. Qed.

Example interrupted_run :
  main interrupted_session =
  ([NewMumble MUMBLE_SERVER MUMBLE_USERNAME MUMBLE_PORT MUMBLE_PASSWORD;
    SetCallback 0%N (lit "text_received"); Start 0%N; IsReady 0%N;
    Log INFO (lit "Connected to Mumble server as ChatBot.");
    Sleep 1; Sleep 1; Sleep 1;
    Log INFO (lit "Bot shutting down...");
    Stop 0%N],
   Some 0%N, Exit).
Proof. reflexivity. Qed.

(** When the constructor raises on the first pass the name [mumble] is
    still unbound in the [finally] block. *)
Example constructor_failure_run :
  main constructor_raises =
  ([NewMumble MUMBLE_SERVER MUMBLE_USERNAME MUMBLE_PORT MUMBLE_PASSWORD;
    Log ERROR (lit "Failed to connect to Mumble server: out of resources");
    Log ERROR (lit "Unexpected error: out of resources");
    Log INFO (lit "Retrying connection... (Attempt 2 of 5)");
    Sleep 5],
   None, Crash (Exn NameError (lit "name 'mumble' is not defined"))).
Proof. reflexivity. Qed.

Lemma Exception_not_interrupt (e : exn) :
  is_Exception e = true -> is_KeyboardInterrupt e = false.
Proof. unfold is_Exception, is_KeyboardInterrupt. now destruct (exn_cls e). Qed.

Lemma schedule_app (t1 t2 : trace) :
  schedule (t1 ++ t2) = schedule t1 ++ schedule t2.
Proof. apply flat_map_app. Qed.

(** The global after the [try] body is the session just built, or the old
    binding when the constructor raised. *)
Lemma try_body_global (a : Attempt) (g : option session) :
  fst (fst (try_body a g)) =
  match new_mumble a with Ret s => Some s | Raise _ => g end.
Proof.
  unfold try_body, connect_to_mumble.
  destruct (try_except _ _ _) as [t [[]|e]]; [destruct (idle a) as [[n e]|]|];
    reflexivity.
Qed.



Lemma handlers_next (a : Attempt) (e : exn) (i : nat) :
  snd (handlers a e i) = NextIteration ->
  snd (fst (handlers a e i)) = S i /\ (S i < retry_attempts)%nat.
Proof.
  unfold handlers.
  destruct (is_KeyboardInterrupt e); [discriminate|].
  destruct (is_Exception e); [|discriminate].
  destruct (S i <? retry_attempts)%nat eqn:E; [|discriminate].
  intros _. split; [reflexivity | now apply Nat.ltb_lt].
Qed.

(** One pass of the loop, spelled out. *)
Lemma main_loop_pass (env : nat -> Attempt) (fuel i : nat)
    (g : option session) :
  (i < retry_attempts)%nat ->
  main_loop env (S fuel) i g =
  let a := env i in
  let g1 := fst (fst (try_body a g)) in
  let t_body := snd (fst (try_body a g)) in
  match snd (try_body a g) with
  | None => (t_body, g1, Hang)
  | Some e =>
      let t_except := fst (fst (handlers a e i)) in
      let t := t_body ++ t_except ++ fst (finally_block a g1) in
      match snd (finally_block a g1) with
      | Raise e' => (t, g1, Crash e')
      | Ret _ =>
          match snd (handlers a e i) with
          | Break => (t, g1, Exit)
          | Propagate e' => (t, g1, Crash e')
          | NextIteration =>
              prepend t (main_loop env fuel (snd (fst (handlers a e i))) g1)
          end
      end
  end.
Proof.
  intros Hi. apply Nat.ltb_lt in Hi. cbn [main_loop]. rewrite Hi. cbv zeta.
  destruct (try_body (env i) g) as [[g1 tb] [e|]]; [|reflexivity].
  cbn [fst snd]. destruct (handlers (env i) e i) as [[te i'] next].
  cbn [fst snd]. now destruct (finally_block (env i) g1) as [tf rf].
Qed.

Lemma main_loop_done (env : nat -> Attempt) (fuel i : nat)
    (g : option session) :
  (retry_attempts <= i)%nat -> main_loop env (S fuel) i g = ([], g, Exit).
Proof.
  intros Hi. cbn [main_loop].
  now replace (i <? retry_attempts)%nat with false
    by (symmetry; apply Nat.ltb_ge; exact Hi).
Qed.

(** The loop never needs more passes than the retry budget. *)
Lemma main_loop_fuel (env : nat -> Attempt) (fuel : nat) :
  forall i g, (retry_attempts - i < fuel)%nat ->
  snd (main_loop env fuel i g) <> OutOfFuel.
Proof.
  induction fuel as [|fuel IH]; intros i g Hf; [lia|].
  destruct (Nat.lt_ge_cases i retry_attempts) as [Hi|Hi].
  - rewrite main_loop_pass by assumption. cbv zeta.
    destruct (snd (try_body (env i) g)) as [e|]; [|discriminate].
    destruct (snd (finally_block _ _)); [|discriminate].
    destruct (snd (handlers (env i) e i)) eqn:Hn; try discriminate.
    apply handlers_next in Hn as [-> Hlt].
    specialize (IH (S i) (fst (fst (try_body (env i) g)))).
    destruct (main_loop env fuel (S i) _) as [[t' g'] f'].
    cbn [prepend snd] in *. apply IH. lia.
  - rewrite main_loop_done by assumption. discriminate.
Qed.

Lemma main_terminates_or_idles (env : nat -> Attempt) :
  snd (main env) <> OutOfFuel.
Proof. apply main_loop_fuel. unfold retry_attempts. lia. Qed.




(** A failed connection attempt: the [try] body builds the session, makes
    one attempt and ends with an [Exception]. *)
Lemma try_body_fails (a : Attempt) (g : option session) :
  connection_fails a = true ->
  exists s e tb,
    is_Exception e = true /\ schedule tb = [Connect] /\
    try_body a g = (Some s, tb, Some e).
Proof.
  unfold connection_fails, try_body, connect_to_mumble.
  destruct (new_mumble a) as [s|]; [|discriminate].
  unfold call, try_except, logging, raise, ret. cbn [bind fst snd].
  destruct (set_callback a) as [[]|e1]; cbn [bind fst snd app];
    [destruct (start a) as [[]|e2]; cbn [bind fst snd app];
     [destruct (is_ready a) as [[]|e3]; cbn [bind fst snd app]|]|];
    try discriminate;
    match goal with
    | |- context [is_Exception ?e] => destruct (is_Exception e) eqn:He
    end;
    cbn [bind fst snd app]; intros H; try congruence;
    do 3 eexists; (split; [exact He | split; [|reflexivity]]); reflexivity.
Qed.

(** A pass whose connection attempt fails, with nothing disturbing the wait
    and the stop: either the loop waits five seconds and goes on, or the
    budget is used up and [main] returns. *)
Lemma failing_pass (env : nat -> Attempt) (fuel i : nat)
    (g : option session) :
  (i < retry_attempts)%nat ->
  connection_fails (env i) = true ->
  undisturbed (env i) = true ->
  exists s e tb,
    schedule tb = [Connect] /\
    main_loop env (S fuel) i g =
    if (S i <? retry_attempts)%nat
    then
      prepend
        (tb ++ [Log ERROR (lit "Unexpected error: " ++ exn_msg e);
                Log INFO (lit "Retrying connection... (Attempt "
                              ++ str_of_nat (S i + 1) ++ lit " of "
                              ++ str_of_nat retry_attempts ++ lit ")");
                Sleep 5; Stop s])
        (main_loop env fuel (S i) (Some s))
    else
      (tb ++ [Log ERROR (lit "Unexpected error: " ++ exn_msg e);
              Log ERROR (lit "Max retry attempts reached. Exiting.");
              Stop s],
       Some s, Exit).
Proof.
  intros Hi Hf Hu.
  destruct (try_body_fails (env i) g Hf) as (s & e & tb & He & Hs & Ht).
  exists s, e, tb. split; [exact Hs|].
  rewrite main_loop_pass by assumption. cbv zeta. rewrite Ht.
  cbn [fst snd finally_block call].
  unfold undisturbed in Hu.
  destruct (retry_sleep (env i)) as [[]|] eqn:Er; [|discriminate].
  destruct (stop (env i)) as [[]|]; [|discriminate].
  unfold handlers. rewrite (Exception_not_interrupt _ He), He, Er.
  destruct (S i <? retry_attempts)%nat; reflexivity.
Qed.

(** X24.  When on each of the five passes the constructor returns, a later
    step of [connect_to_mumble] raises an [Exception], and the wait before
    the next attempt and the stop of the session return, [main] calls the
    constructor five times, waits five seconds between one attempt and the
    next, writes the record [Max retry attempts reached. Exiting.], stops
    the last session and returns: there is no sixth attempt. *)
Theorem five_attempts_five_seconds_apart (env : nat -> Attempt) :
  (forall i, (i < retry_attempts)%nat ->
     connection_fails (env i) = true /\ undisturbed (env i) = true) ->
  exists t s,
    main env =
    (t ++ [Log ERROR (lit "Max retry attempts reached. Exiting."); Stop s],
     Some s, Exit)
    /\ schedule t =
       [Connect; Wait 5; Connect; Wait 5; Connect; Wait 5; Connect; Wait 5;
        Connect].
Proof.
  intros H. unfold main. change (S retry_attempts) with 6%nat.
  assert (A0 : (0 < retry_attempts)%nat) by (unfold retry_attempts; lia).
  assert (A1 : (1 < retry_attempts)%nat) by (unfold retry_attempts; lia).
  assert (A2 : (2 < retry_attempts)%nat) by (unfold retry_attempts; lia).
  assert (A3 : (3 < retry_attempts)%nat) by (unfold retry_attempts; lia).
  assert (A4 : (4 < retry_attempts)%nat) by (unfold retry_attempts; lia).
  destruct (H _ A0) as [F0 U0]. destruct (H _ A1) as [F1 U1].
  destruct (H _ A2) as [F2 U2]. destruct (H _ A3) as [F3 U3].
  destruct (H _ A4) as [F4 U4].
  destruct (@failing_pass env 5 0 None A0 F0 U0) as (s0 & e0 & t0 & S0 & ->).
  destruct (@failing_pass env 4 1 (Some s0) A1 F1 U1)
    as (s1 & e1 & t1 & S1 & ->).
  destruct (@failing_pass env 3 2 (Some s1) A2 F2 U2)
    as (s2 & e2 & t2 & S2 & ->).
  destruct (@failing_pass env 2 3 (Some s2) A3 F3 U3)
    as (s3 & e3 & t3 & S3 & ->).
  destruct (@failing_pass env 1 4 (Some s3) A4 F4 U4)
    as (s4 & e4 & t4 & S4 & ->).
  cbn [Nat.ltb Nat.leb retry_attempts prepend].
  match goal with
  | |- exists t s, (?p0 ++ ?p1 ++ ?p2 ++ ?p3 ++ t4 ++ [?u; _; _], _, _) = _ /\ _ =>
      exists (p0 ++ p1 ++ p2 ++ p3 ++ t4 ++ [u]), s4
  end.
  split.
  - rewrite <- !app_assoc. reflexivity.
  - rewrite !schedule_app, S0, S1, S2, S3, S4. reflexivity.
Qed.

Lemma five_attempts_five_seconds_apart_witness :
  exists t s,
    main always_refused =
    (t ++ [Log ERROR (lit "Max retry attempts reached. Exiting."); Stop s],
     Some s, Exit)
    /\ schedule t =
       [Connect; Wait 5; Connect; Wait 5; Connect; Wait 5; Connect; Wait 5;
        Connect].
Proof.
  apply (@five_attempts_five_seconds_apart always_refused).
  intros i _. split; reflexivity.
Defined.

(** C4 (the code departs from the claim).  With a constructor that raises
    on every pass, every connection attempt fails: each call of
    [connect_to_mumble] raises an [Exception], which it logs as a failed
    connection, and neither the wait nor the stop is disturbed.  The claim
    asks for five attempts, five seconds apart, the fatal record and a
    return.  The code makes one attempt, logs the retry, waits five seconds
    and then reads the name [mumble], never assigned, in the [finally]
    block: [main] ends with [NameError], without a second attempt and
    without the record [Max retry attempts reached. Exiting.]. *)
Theorem C4_constructor_failure_is_not_retried :
  (forall i g,
      snd (snd (connect_to_mumble (constructor_raises i) g)) =
      Raise (Exn OtherException (lit "out of resources"))) /\
  is_Exception (Exn OtherException (lit "out of resources")) = true /\
  (forall i, undisturbed (constructor_raises i) = true) /\
  main constructor_raises =
    ([NewMumble MUMBLE_SERVER MUMBLE_USERNAME MUMBLE_PORT MUMBLE_PASSWORD;
      Log ERROR (lit "Failed to connect to Mumble server: out of resources");
      Log ERROR (lit "Unexpected error: out of resources");
      Log INFO (lit "Retrying connection... (Attempt 2 of 5)");
      Sleep 5],
     None, Crash (Exn NameError (lit "name 'mumble' is not defined"))) /\
  schedule (fst (fst (main constructor_raises))) = [Connect; Wait 5] /\
  ~ In (Log ERROR (lit "Max retry attempts reached. Exiting."))
       (fst (fst (main constructor_raises))).
Proof.
  repeat split; try reflexivity.
  cbn. intros H. repeat (destruct H as [H|H]; [discriminate|]). contradiction.
Qed.

(* ================================================================== *)
(** * Further properties of the code *)

(* ================================================================== *)
(** ** More on the string primitives *)

Lemma rstrip_head (s : str) :
  rstrip s = [] \/ exists c r, s = c :: tl s /\ rstrip s = c :: r.
Proof.
  destruct s as [|c s]; [now left|]. cbn [rstrip].
  destruct (rstrip s) as [|r0 r].
  - destruct (isspace c); [now left | right; now exists c, []].
  - right. now exists c, (r0 :: r).
Qed.

Lemma lstrip_head (s : str) :
  lstrip s = [] \/ exists c r, lstrip s = c :: r /\ isspace c = false.
Proof.
  induction s as [|c s IH]; [now left|]. cbn [lstrip].
  destruct (isspace c) eqn:E; [exact IH | right; now exists c, s].
Qed.

Lemma rstrip_idempotent (s : str) : rstrip (rstrip s) = rstrip s.
Proof.
  induction s as [|c s IH]; [reflexivity|]. cbn [rstrip].
  destruct (rstrip s) as [|r0 r] eqn:E.
  - destruct (isspace c) eqn:Hc; [reflexivity|]. cbn. now rewrite Hc.
  - change (rstrip (c :: r0 :: r))
      with (match rstrip (r0 :: r) with
            | [] => if isspace c then [] else [c]
            | x :: y => c :: x :: y
            end).
    now rewrite IH.
Qed.

Lemma strip_idempotent (s : str) : strip (strip s) = strip s.
Proof.
  unfold strip.
  destruct (lstrip_head s) as [->|(c & r & -> & Hc)]; [reflexivity|].
  destruct (rstrip_head (c :: r)) as [->|(c' & r' & Hs & Hr)]; [reflexivity|].
  injection Hs as <-. rewrite Hr. cbn [lstrip]. rewrite Hc.
  rewrite <- Hr. apply rstrip_idempotent.
Qed.

Lemma blank_split (s : str) :
  Forall (fun c => isspace c = true) s -> split s = [].
Proof.
  unfold split. induction 1 as [|c s Hc _ IH]; [reflexivity|].
  cbn [split_from]. now rewrite Hc.
Qed.

Lemma blank_without_marker (s : str) :
  Forall (fun c => isspace c = true) s -> contains s marker = false.
Proof.
  induction 1 as [|c s Hc _ IH]; [reflexivity|].
  cbn [contains]. rewrite IH, orb_false_r.
  change (startswith (c :: s) marker)
    with (N.eqb c 67 && startswith s (tl marker)).
  destruct (N.eqb_spec c 67) as [->|]; [discriminate | reflexivity].
Qed.

(* ================================================================== *)
(** ** More on generate_response *)

(** [generate_response] by cases on the answer of the endpoint. *)
Lemma generate_response_cases (w : World) (p : str) :
  generate_response w p =
  match backend_answer w p with
  | Raise e =>
      if is_RequestException e
      then ([request_for p;
             Log ERROR (lit "Failed to generate response: " ++ exn_msg e)],
            Ret None)
      else ([request_for p], Raise e)
  | Ret r =>
      if status_passes (status_code r)
      then
        match content r with
        | NotJson =>
            ([request_for p;
              Log ERROR (lit "Failed to generate response: "
                             ++ lit "Expecting value")],
             Ret None)
        | Json v =>
            if truthy v
            then
              match v with
              | PDict items =>
                  match dict_lookup items (lit "content") with
                  | Some (PStr s) => ([request_for p], Ret (Some (strip s)))
                  | Some c => ([request_for p], Raise (no_attribute c "strip"))
                  | None => ([request_for p], Ret (Some (strip [])))
                  end
              | _ => ([request_for p], Raise (no_attribute v "get"))
              end
            else ([request_for p], Ret None)
        end
      else
        ([request_for p;
          Log ERROR (lit "Failed to generate response: " ++ lit "HTTP error")],
         Ret None)
  end.
Proof.
  unfold generate_response, backend_answer, request_for, status_passes.
  cbv zeta. unfold call, raise_for_status.
  generalize (lit "content"); intros key.
  destruct (requests_post w _ _ _) as [[status body]|e].
  - cbn -[Z.leb Z.ltb strip dict_lookup].
    destruct ((400 <=? status) && (status <? 600))%Z; [reflexivity|].
    destruct body as [|v]; [reflexivity|].
    cbn -[strip dict_lookup]. destruct (truthy v) eqn:Hv; [|reflexivity].
    destruct v; try reflexivity.
    cbn -[strip dict_lookup].
    destruct (dict_lookup items key) as [c|]; [|reflexivity].
    destruct c; reflexivity.
  - cbn. destruct (is_RequestException e); reflexivity.
Qed.

(** The trace of [generate_response] is the request alone, or the request
    and one error record, in which case [None] is returned. *)
Lemma generate_response_shape (w : World) (p : str) :
  (exists r, generate_response w p = ([request_for p], r)) \/
  (exists msg,
      generate_response w p = ([request_for p; Log ERROR msg], Ret None)).
Proof.
  rewrite generate_response_cases.
  destruct (backend_answer w p) as [[status body]|e]; cbn [status_code content].
  - destruct (status_passes status); [|eauto].
    destruct body as [|v]; [eauto|].
    destruct (truthy v); [|eauto].
    destruct v; eauto.
    destruct (dict_lookup items _) as [c|]; [destruct c|]; eauto.
  - destruct (is_RequestException e); eauto.
Qed.

(** X1.  When the status passes [raise_for_status] and the body is an object
    whose content is a string, [generate_response] sends the one request,
    logs nothing and returns that string trimmed. *)
Theorem generate_response_returns_trimmed_content (w : World) (p : str)
    (status : Z) (items : list (str * pyval)) (raw : str) :
  backend_answer w p = Ret (Response status (Json (PDict items))) ->
  status_passes status = true ->
  dict_lookup items (lit "content") = Some (PStr raw) ->
  generate_response w p = ([request_for p], Ret (Some (strip raw))).
Proof.
  intros Ha Hs Hc. rewrite generate_response_cases, Ha.
  cbn [status_code content]. rewrite Hs.
  destruct items as [|i items]; [discriminate|].
  change (truthy (PDict (i :: items))) with true. cbv iota.
  now rewrite Hc.
Qed.

Lemma generate_response_returns_trimmed_content_witness :
  generate_response (demo_world (answers "  Sure!  ")) (lit "hi") =
  ([request_for (lit "hi")], Ret (Some (lit "Sure!"))).
Proof.
  exact (@generate_response_returns_trimmed_content
           (demo_world (answers "  Sure!  ")) (lit "hi") 200
           [(lit "content", PStr (lit "  Sure!  "))] (lit "  Sure!  ")
           eq_refl eq_refl eq_refl).
Defined.

(** X2.  Whatever text [generate_response] returns is trimmed: stripping it
    again changes nothing, so the marker test of the caller is made on text
    without leading whitespace. *)
Theorem generate_response_text_is_trimmed (w : World) (p : str) (t : trace)
    (s : str) :
  generate_response w p = (t, Ret (Some s)) -> strip s = s.
Proof.
  rewrite generate_response_cases.
  destruct (backend_answer w p) as [[status body]|e]; cbn [status_code content].
  - destruct (status_passes status); [|discriminate].
    destruct body as [|v]; [discriminate|].
    destruct (truthy v); [|discriminate].
    destruct v; try discriminate.
    destruct (dict_lookup items _) as [c|]; [destruct c|];
      try discriminate; intros [= _ <-]; apply strip_idempotent.
  - destruct (is_RequestException e); discriminate.
Qed.

Lemma generate_response_text_is_trimmed_witness :
  strip (lit "Sure!") = lit "Sure!".
Proof.
  exact (@generate_response_text_is_trimmed
           (demo_world (answers "  Sure!  ")) (lit "hi") _ (lit "Sure!")
           eq_refl).
Defined.

(** X3.  No [RequestException] ever leaves [generate_response]: an exception
    that does is of another class. *)
Theorem generate_response_contains_request_errors (w : World) (p : str)
    (t : trace) (e : exn) :
  generate_response w p = (t, Raise e) -> is_RequestException e = false.
Proof.
  rewrite generate_response_cases.
  destruct (backend_answer w p) as [[status body]|e']; cbn [status_code content].
  - destruct (status_passes status); [|discriminate].
    destruct body as [|v]; [discriminate|].
    destruct (truthy v); [|discriminate].
    destruct v; try (intros [= _ <-]; reflexivity).
    destruct (dict_lookup items _) as [c|]; [destruct c|];
      try discriminate; intros [= _ <-]; reflexivity.
  - destruct (is_RequestException e') eqn:E; [discriminate|].
    now intros [= _ <-].
Qed.

Lemma generate_response_contains_request_errors_witness :
  is_RequestException
    (Exn AttributeError (lit "'list' object has no attribute 'get'")) = false.
Proof.
  exact (@generate_response_contains_request_errors
           (demo_world (Ret (Response 200 (Json (PList [PInt 1])))))
           (lit "hi") _ _ eq_refl).
Defined.

(** X4.  When the HTTP call raises a [RequestException], the failure is
    logged once, with the text of the exception, and [None] is returned. *)
Theorem generate_response_logs_request_error (w : World) (p : str) (e : exn) :
  backend_answer w p = Raise e ->
  is_RequestException e = true ->
  generate_response w p =
  ([request_for p;
    Log ERROR (lit "Failed to generate response: " ++ exn_msg e)],
   Ret None).
Proof.
  intros Ha He. now rewrite generate_response_cases, Ha, He.
Qed.

Lemma generate_response_logs_request_error_witness :
  generate_response
    (demo_world (Raise (Exn ConnectionError (lit "Connection refused"))))
    (lit "hi") =
  ([request_for (lit "hi");
    Log ERROR (lit "Failed to generate response: Connection refused")],
   Ret None).
Proof.
  exact (@generate_response_logs_request_error
           (demo_world (Raise (Exn ConnectionError (lit "Connection refused"))))
           (lit "hi") _ eq_refl eq_refl).
Defined.

(** X5.  When the status passes and the body decodes to a truthy value that
    is not an object, [generate_response] raises the [AttributeError] of the
    missing [get] and logs nothing. *)
Theorem generate_response_rejects_non_object (w : World) (p : str)
    (status : Z) (v : pyval) :
  backend_answer w p = Ret (Response status (Json v)) ->
  status_passes status = true ->
  truthy v = true ->
  is_dict v = false ->
  generate_response w p = ([request_for p], Raise (no_attribute v "get")).
Proof.
  intros Ha Hs Ht Hd. rewrite generate_response_cases, Ha.
  cbn [status_code content]. rewrite Hs, Ht.
  destruct v; try discriminate; reflexivity.
Qed.

Lemma generate_response_rejects_non_object_witness :
  generate_response
    (demo_world (Ret (Response 200 (Json (PStr (lit "Sure!")))))) (lit "hi") =
  ([request_for (lit "hi")],
   Raise (Exn AttributeError (lit "'str' object has no attribute 'get'"))).
Proof.
  exact (@generate_response_rejects_non_object
           (demo_world (Ret (Response 200 (Json (PStr (lit "Sure!"))))))
           (lit "hi") 200 (PStr (lit "Sure!"))
           eq_refl eq_refl eq_refl eq_refl).
Defined.

(** X6.  When the status passes and the body is an object whose content is
    present but not a string, [generate_response] raises the
    [AttributeError] of the missing [strip] and logs nothing. *)
Theorem generate_response_rejects_non_string_content (w : World) (p : str)
    (status : Z) (items : list (str * pyval)) (c : pyval) :
  backend_answer w p = Ret (Response status (Json (PDict items))) ->
  status_passes status = true ->
  dict_lookup items (lit "content") = Some c ->
  is_str c = false ->
  generate_response w p = ([request_for p], Raise (no_attribute c "strip")).
Proof.
  intros Ha Hs Hc Hn. rewrite generate_response_cases, Ha.
  cbn [status_code content]. rewrite Hs.
  destruct items as [|i items]; [discriminate|].
  change (truthy (PDict (i :: items))) with true. cbv iota.
  rewrite Hc. destruct c; try discriminate; reflexivity.
Qed.

Lemma generate_response_rejects_non_string_content_witness :
  generate_response
    (demo_world
       (Ret (Response 200 (Json (PDict [(lit "content", PInt 42)])))))
    (lit "hi") =
  ([request_for (lit "hi")],
   Raise (Exn AttributeError (lit "'int' object has no attribute 'strip'"))).
Proof.
  exact (@generate_response_rejects_non_string_content
           (demo_world
              (Ret (Response 200 (Json (PDict [(lit "content", PInt 42)])))))
           (lit "hi") 200 [(lit "content", PInt 42)] (PInt 42)
           eq_refl eq_refl eq_refl eq_refl).
Defined.

(* ================================================================== *)
(** ** More on execute_command *)

(** Every run of [execute_command] is one of these. *)
Lemma execute_command_cases (lower : str -> str) (w : World) (command : str) :
  (startswith command marker = false /\
   execute_command lower w command = ([], Ret tt)) \/
  (startswith command marker = true /\
   split (command_text command) = [] /\
   execute_command lower w command =
   ([Log ERROR (lit "Failed to execute command: "
                    ++ lit "list index out of range")], Ret tt)) \/
  (exists verb u c,
      split (command_text command) = [verb; u; c] /\
      execute_command lower w command = guarded (move_branch w u c)) \/
  (exists verb u,
      split (command_text command) = [verb; u] /\
      (execute_command lower w command = guarded (mute_branch w u) \/
       execute_command lower w command = guarded (unmute_branch w u) \/
       execute_command lower w command = guarded (kick_branch w u))) \/
  execute_command lower w command = guarded (help_branch w) \/
  execute_command lower w command =
  ([Log ERROR (lit "Invalid command: " ++ command_text command)], Ret tt).
Proof.
  destruct (startswith command marker) eqn:Hs.
  2:{ left. split; [reflexivity|]. unfold execute_command. now rewrite Hs. }
  right. destruct (split (command_text command)) as [|verb args] eqn:Hp.
  { left. repeat split. unfold execute_command. rewrite Hs.
    fold (command_text command). cbv zeta. now rewrite Hp. }
  right.
  destruct (str_eqb (lower verb) (lit "/help")) eqn:Hh.
  { do 2 right. left. apply str_eqb_eq in Hh. now apply runs_help with verb args. }
  destruct (spec_well_formed (lower verb) (length args)) eqn:Hw.
  2:{ do 3 right. now apply runs_invalid with verb args. }
  unfold spec_well_formed, spec_arity in Hw.
  destruct (str_eqb (lower verb) (lit "/move")) eqn:E1.
  { left. apply str_eqb_eq in E1.
    destruct args as [|u [|c [|? ?]]]; try discriminate.
    exists verb, u, c. split; [reflexivity|]. now apply runs_move with verb. }
  right. left.
  destruct (str_eqb (lower verb) (lit "/mute")) eqn:E2.
  { apply str_eqb_eq in E2. destruct args as [|u [|? ?]]; try discriminate.
    exists verb, u. split; [reflexivity|]. left. now apply runs_mute with verb. }
  destruct (str_eqb (lower verb) (lit "/unmute")) eqn:E3.
  { apply str_eqb_eq in E3. destruct args as [|u [|? ?]]; try discriminate.
    exists verb, u. split; [reflexivity|]. right; left.
    now apply runs_unmute with verb. }
  destruct (str_eqb (lower verb) (lit "/kick")) eqn:E4.
  { apply str_eqb_eq in E4. destruct args as [|u [|? ?]]; try discriminate.
    exists verb, u. split; [reflexivity|]. right; right.
    now apply runs_kick with verb. }
  rewrite Hh in Hw. discriminate.
Qed.

(** X7.  A reply that is the marker followed by nothing but whitespace has
    no verb: the index error is caught and logged, nothing else happens. *)
Theorem execute_command_blank_command (lower : str -> str) (w : World)
    (rest : str) :
  Forall (fun c => isspace c = true) rest ->
  execute_command lower w (marker ++ rest) =
  ([Log ERROR (lit "Failed to execute command: list index out of range")],
   Ret tt).
Proof.
  intros Hb.
  assert (Hp : split (command_text (marker ++ rest)) = []).
  { unfold command_text.
    rewrite (@replace_leading marker (tl marker) rest (hd 0%N marker) eq_refl
               (blank_without_marker Hb)).
    rewrite split_strip. now apply blank_split. }
  unfold execute_command. rewrite startswith_app.
  fold (command_text (marker ++ rest)). cbv zeta. now rewrite Hp.
Qed.

Lemma execute_command_blank_command_witness :
  execute_command ascii_lower (demo_world (answers "")) (lit "COMMAND:  ") =
  ([Log ERROR (lit "Failed to execute command: list index out of range")],
   Ret tt).
Proof.
  apply (@execute_command_blank_command ascii_lower (demo_world (answers ""))
           (lit "  ")).
  repeat constructor.
Defined.

(** X8.  [/help], whatever follows it, looks the home channel up and sends
    it the help text; the success record is written only when the send
    returned, and a failed lookup or send is logged as a failed command. *)
Theorem help_sends_help_text (lower : str -> str) (w : World)
    (reply verb : str) (args : list str) :
  orderly w ->
  startswith reply marker = true ->
  split (command_text reply) = verb :: args ->
  lower verb = lit "/help" ->
  execute_command lower w reply =
  (match channels_find_by_name w MUMBLE_CHANNEL with
   | Ret (Some home) =>
       SendText home help_message
         :: match send_text_message w home help_message with
            | Ret _ => [Log INFO (lit "Displayed help message.")]
            | Raise e =>
                [Log ERROR (lit "Failed to execute command: " ++ exn_msg e)]
            end
   | Ret None =>
       [Log ERROR
          (lit "Failed to execute command: "
               ++ lit "'NoneType' object has no attribute 'send_text_message'")]
   | Raise e => [Log ERROR (lit "Failed to execute command: " ++ exn_msg e)]
   end,
   Ret tt).
Proof.
  intros Hw Hs Hp Hv. rewrite (runs_help lower w _ Hs Hp Hv).
  unfold help_branch, send_to_channel, guarded, try_except, ask, call.
  pose proof (within_channels Hw MUMBLE_CHANNEL) as Hc.
  destruct (channels_find_by_name w MUMBLE_CHANNEL) as [[home|]|e];
    cbn [bind fst snd raises_within] in *.
  - pose proof (within_send Hw home help_message) as Hd.
    destruct (send_text_message w home help_message) as [[]|e];
      cbn [bind fst snd raises_within logging app] in *; [reflexivity|].
    now rewrite Hd.
  - reflexivity.
  - now rewrite Hc.
Qed.

Lemma help_sends_help_text_witness :
  execute_command ascii_lower (demo_world (answers ""))
    (lit "COMMAND:/HELP please") =
  ([SendText (Channel 0) help_message;
    Log INFO (lit "Displayed help message.")], Ret tt).
Proof.
  exact (@help_sends_help_text ascii_lower (demo_world (answers ""))
           (lit "COMMAND:/HELP please") (lit "/HELP") [lit "please"]
           (demo_world_orderly (answers "") I) eq_refl eq_refl eq_refl).
Defined.





Ltac crunch_branch :=
  unfold guarded, try_except, move_branch, mute_branch, unmute_branch,
    kick_branch, help_branch, send_to_channel, ask, call, logging, raise, ret;
  repeat (cbn [bind fst snd app];
          match goal with
          | |- context [users_find_by_name ?w ?n] =>
              destruct (users_find_by_name w n) as [[?|]|?] eqn:?
          | |- context [channels_find_by_name ?w ?n] =>
              destruct (channels_find_by_name w n) as [[?|]|?] eqn:?
          | |- context [user_move ?w ?u ?c] =>
              destruct (user_move w u c) as [[]|?] eqn:?
          | |- context [user_mute ?w ?u] =>
              destruct (user_mute w u) as [[]|?] eqn:?
          | |- context [user_unmute ?w ?u] =>
              destruct (user_unmute w u) as [[]|?] eqn:?
          | |- context [user_kick ?w ?u] =>
              destruct (user_kick w u) as [[]|?] eqn:?
          | |- context [send_text_message ?w ?c ?m] =>
              destruct (send_text_message w c m) as [[]|?] eqn:?
          | |- context [is_Exception ?e] => destruct (is_Exception e) eqn:?
          end);
  cbn [bind fst snd app].

(** X11.  Whatever the text and whatever the environment answers,
    [execute_command] makes at most one call that changes the server or
    speaks in a channel. *)
Theorem execute_command_at_most_one_action (lower : str -> str) (w : World)
    (command : str) :
  (length (actions (fst (execute_command lower w command))) <= 1)%nat.
Proof.
  destruct (execute_command_cases lower w command)
    as [[_ ->]|[(_ & _ & ->)|[(verb & u & c & _ & ->)|[(verb & u & _ & H)|[->| ->]]]]];
    [ cbn; lia | cbn; lia | | destruct H as [->|[->| ->]] | | cbn; lia ];
    crunch_branch; cbn; lia.
Qed.

Lemma licensed_user (w : World) (tokens : list str) (name : str) (u : user) :
  In name tokens ->
  users_find_by_name w name = Ret (Some u) ->
  licensed w tokens (UserMute u) /\ licensed w tokens (UserUnmute u)
  /\ licensed w tokens (UserKick u).
Proof. intros; repeat split; now exists name. Qed.

Lemma licensed_move (w : World) (tokens : list str) (name ch : str)
    (u : user) (c : channel) :
  In name tokens -> In ch tokens ->
  users_find_by_name w name = Ret (Some u) ->
  channels_find_by_name w ch = Ret (Some c) ->
  licensed w tokens (UserMove u (channel_id c)).
Proof. intros. now exists name, ch, c. Qed.

Ltac licensed_events :=
  repeat first [apply Forall_cons | apply Forall_nil];
  first
    [ exact I
    | eapply licensed_move; [| |eassumption|eassumption]; cbn [In]; auto
    | eapply licensed_user; [|eassumption]; cbn [In]; auto
    | split; [reflexivity | eassumption] ].

(** X12.  Every effect of [execute_command] is licensed by the command text
    and the registry: a moderation call is made on a user the registry
    returned for one of the tokens of the command (a move, to the id of a
    channel it returned for one of them), the only text ever sent is the
    help text, to the channel the home name resolves to, and nothing else
    but log records is done. *)
Theorem execute_command_only_licensed_effects (lower : str -> str)
    (w : World) (command : str) :
  Forall (licensed w (split (command_text command)))
         (fst (execute_command lower w command)).
Proof.
  destruct (execute_command_cases lower w command)
    as [[_ ->]|[(_ & _ & ->)|[(verb & u & c & Hp & ->)|[(verb & u & Hp & H)|[->| ->]]]]].
  - constructor.
  - repeat constructor.
  - rewrite Hp. crunch_branch; licensed_events.
  - rewrite Hp. destruct H as [->|[->| ->]]; crunch_branch; licensed_events.
  - crunch_branch; licensed_events.
  - repeat constructor.
Qed.

(* ================================================================== *)
(** ** More on on_message_received *)

(** X13.  A generated reply that starts with the marker is handed to
    [execute_command] and to nothing else: after the two records and the
    request, the callback does what [execute_command] does on that reply and
    ends as it ends; the reply is not sent to the channel as text. *)
Theorem command_reply_is_executed (lower : str -> str) (w : World)
    (m : ChatMessage) (t : trace) (reply : str) :
  str_eqb (actor m) MUMBLE_USERNAME = false ->
  generate_response w (strip (message m)) = (t, Ret (Some reply)) ->
  startswith reply marker = true ->
  on_message_received lower w m =
  (Log INFO (lit "Received message from " ++ actor m ++ lit ": "
                 ++ strip (message m))
     :: t
     ++ Log INFO (lit "Generated response: " ++ reply)
     :: fst (execute_command lower w reply),
   snd (execute_command lower w reply)).
Proof.
  intros Ha Hg Hs. unfold on_message_received. rewrite Ha.
  rewrite bind_logging, Hg. destruct reply as [|c r]; [discriminate|].
  cbn [bind fst snd]. rewrite bind_logging, Hs.
  now destruct (execute_command lower w (c :: r)).
Qed.

Lemma command_reply_is_executed_witness :
  on_message_received ascii_lower (demo_world (answers " COMMAND:/mute Bob"))
    {| actor := lit "Alice"; message := lit "mute Bob" |} =
  ([Log INFO (lit "Received message from Alice: mute Bob");
    request_for (lit "mute Bob");
    Log INFO (lit "Generated response: COMMAND:/mute Bob");
    UserMute 7%N;
    Log INFO (lit "Muted Bob.")],
   Ret tt).
Proof.
  exact (@command_reply_is_executed ascii_lower
           (demo_world (answers " COMMAND:/mute Bob"))
           {| actor := lit "Alice"; message := lit "mute Bob" |}
           _ (lit "COMMAND:/mute Bob") eq_refl eq_refl eq_refl).
Defined.

(** X14.  When [generate_response] returns [None] or the empty string, the
    callback writes the warning and does nothing else: no send, no
    moderation call. *)
Theorem empty_result_only_warns (lower : str -> str) (w : World)
    (m : ChatMessage) (t : trace) (r : option str) :
  str_eqb (actor m) MUMBLE_USERNAME = false ->
  generate_response w (strip (message m)) = (t, Ret r) ->
  is_Failure r = true ->
  on_message_received lower w m =
  (Log INFO (lit "Received message from " ++ actor m ++ lit ": "
                 ++ strip (message m))
     :: t
     ++ [Log WARNING (lit "No response generated or API request failed.")],
   Ret tt).
Proof.
  intros Ha Hg Hf. unfold on_message_received. rewrite Ha.
  rewrite bind_logging, Hg. destruct r as [[|c r]|]; try discriminate;
    reflexivity.
Qed.

Lemma empty_result_only_warns_witness :
  on_message_received ascii_lower (demo_world (answers "   "))
    {| actor := lit "Alice"; message := lit "hello" |} =
  ([Log INFO (lit "Received message from Alice: hello");
    request_for (lit "hello");
    Log WARNING (lit "No response generated or API request failed.")],
   Ret tt).
Proof.
  exact (@empty_result_only_warns ascii_lower (demo_world (answers "   "))
           {| actor := lit "Alice"; message := lit "hello" |}
           _ (Some []) eq_refl eq_refl eq_refl).
Defined.

Lemma execute_command_returns (lower : str -> str) (w : World)
    (command : str) :
  orderly w -> exists t, execute_command lower w command = (t, Ret tt).
Proof.
  intros Hw. apply guarded_returns.
  apply command_body_respects; [apply builtin_is_Exception | exact Hw].
Qed.

(** What follows the generation call returns normally in an orderly
    world. *)
Lemma dispatch_returns (lower : str -> str) (w : World)
    (response : option str) :
  orderly w ->
  exists t,
    match response with
    | Some ((_ :: _) as response) =>
        logging INFO (lit "Generated response: " ++ response) ;;
        if startswith response marker
        then execute_command lower w response
        else
          try_except
            (send_to_channel w MUMBLE_CHANNEL response)
            is_Exception
            (fun e =>
               logging ERROR
                 (lit "Failed to send message to Mumble: " ++ exn_msg e))
    | _ => logging WARNING (lit "No response generated or API request failed.")
    end = (t, Ret tt).
Proof.
  intros Hw. destruct response as [[|c r]|]; try (eexists; reflexivity).
  rewrite bind_logging. destruct (startswith (c :: r) marker).
  - destruct (execute_command_returns lower (c :: r) Hw) as [t Ht].
    rewrite Ht. eexists; reflexivity.
  - pose proof (send_to_channel_respects builtin_is_Exception Hw
                  MUMBLE_CHANNEL (c :: r)) as [_ Hr].
    unfold try_except.
    destruct (send_to_channel w MUMBLE_CHANNEL (c :: r)) as [t [[]|e]];
      cbn [fst snd raises_within] in *; [eexists; reflexivity|].
    rewrite Hr. eexists; reflexivity.
Qed.

(** X15.  In an orderly world the only exceptions that leave the callback
    are those [generate_response] raised: everything done after the
    generation call is contained. *)
Theorem callback_raises_only_from_generation (lower : str -> str)
    (w : World) (m : ChatMessage) (t : trace) (e : exn) :
  orderly w ->
  on_message_received lower w m = (t, Raise e) ->
  exists t', generate_response w (strip (message m)) = (t', Raise e).
Proof.
  intros Hw. unfold on_message_received.
  destruct (str_eqb (actor m) MUMBLE_USERNAME); [discriminate|].
  rewrite bind_logging.
  destruct (generate_response w (strip (message m))) as [t' [r|e']].
  - destruct (dispatch_returns lower r Hw) as [td Hd].
    cbn [bind fst snd]. rewrite Hd. discriminate.
  - cbn [bind fst snd]. intros [= _ <-]. now exists t'.
Qed.

Lemma callback_raises_only_from_generation_witness :
  exists t',
    generate_response (demo_world (Ret (Response 200 (Json (PList [PInt 1])))))
      (strip (lit "hi")) =
    (t', Raise (Exn AttributeError (lit "'list' object has no attribute 'get'"))).
Proof.
  exact (@callback_raises_only_from_generation ascii_lower
           (demo_world (Ret (Response 200 (Json (PList [PInt 1])))))
           {| actor := lit "Alice"; message := lit "hi" |} _ _
           (demo_world_orderly (Ret (Response 200 (Json (PList [PInt 1])))) I)
           eq_refl).
Defined.

Lemma actions_app (t1 t2 : trace) :
  actions (t1 ++ t2) = actions t1 ++ actions t2.
Proof. apply filter_app. Qed.

Lemma actions_log (l : level) (msg : str) (t : trace) :
  actions (Log l msg :: t) = actions t.
Proof. reflexivity. Qed.

(** X16.  Whatever the message and whatever the environment answers, the
    callback makes at most one call that changes the server or speaks in a
    channel. *)
Theorem callback_at_most_one_action (lower : str -> str) (w : World)
    (m : ChatMessage) :
  (length (actions (fst (on_message_received lower w m))) <= 1)%nat.
Proof.
  unfold on_message_received.
  destruct (str_eqb (actor m) MUMBLE_USERNAME); [cbn; lia|].
  rewrite bind_logging. cbn [fst]. rewrite actions_log.
  assert (Hg : actions (fst (generate_response w (strip (message m)))) = []).
  { destruct (generate_response_shape w (strip (message m)))
      as [[r ->]|[msg ->]]; reflexivity. }
  destruct (generate_response w (strip (message m))) as [tg [r|e]];
    cbn [bind fst snd] in *.
  2:{ rewrite Hg. cbn; lia. }
  assert (Hd : (length (actions (fst
            (match r with
             | Some ((_ :: _) as response) =>
                 logging INFO (lit "Generated response: " ++ response) ;;
                 if startswith response marker
                 then execute_command lower w response
                 else
                   try_except
                     (send_to_channel w MUMBLE_CHANNEL response)
                     is_Exception
                     (fun e =>
                        logging ERROR
                          (lit "Failed to send message to Mumble: "
                               ++ exn_msg e))
             | _ =>
                 logging WARNING
                   (lit "No response generated or API request failed.")
             end))) <= 1)%nat).
  { destruct r as [[|c r]|]; try (cbn; lia).
    rewrite bind_logging. cbn [fst]. rewrite actions_log.
    destruct (startswith (c :: r) marker).
    - destruct (execute_command_cases lower w (c :: r))
        as [[_ ->]|[(_ & _ & ->)|[(verb & u & ch & _ & ->)
           |[(verb & u & _ & H)|[->| ->]]]]];
        [ cbn; lia | cbn; lia | | destruct H as [->|[->| ->]] | | cbn; lia ];
        crunch_branch; cbn; lia.
    - crunch_branch; cbn; lia. }
  destruct (match r with Some (_ :: _) => _ | _ => _ end) as [td rd].
  cbn [fst snd] in *. rewrite actions_app, Hg. exact Hd.
Qed.

(* ================================================================== *)
(** ** More on connect_to_mumble *)

Ltac absurd_membership :=
  let H := fresh in
  intros H; repeat (destruct H as [H|H]; [discriminate|]); contradiction.

(** X17.  [connect_to_mumble] swallows nothing: it returns normally exactly
    when all four steps returned, having written the Connected record, and
    otherwise raises the exception of the first step that raised; the name
    [mumble] is rebound as soon as the constructor has returned, also when a
    later step fails. *)
Theorem connect_reraises_first_failure (a : Attempt) (g : option session) :
  fst (connect_to_mumble a g) =
    match new_mumble a with Ret s => Some s | Raise _ => g end /\
  snd (snd (connect_to_mumble a g)) =
    match first_failure a with None => Ret tt | Some e => Raise e end /\
  (In connected_record (fst (snd (connect_to_mumble a g))) <->
   first_failure a = None).
Proof.
  unfold connect_to_mumble, first_failure, call, try_except, logging, raise.
  cbn [fst snd].
  destruct (new_mumble a) as [s|e0]; cbn [bind fst snd app].
  2:{ destruct (is_Exception e0); cbn; repeat split;
        solve [reflexivity | discriminate | absurd_membership]. }
  destruct (set_callback a) as [[]|e1]; cbn [bind fst snd app].
  2:{ destruct (is_Exception e1); cbn; repeat split;
        solve [reflexivity | discriminate | absurd_membership]. }
  destruct (start a) as [[]|e2]; cbn [bind fst snd app].
  2:{ destruct (is_Exception e2); cbn; repeat split;
        solve [reflexivity | discriminate | absurd_membership]. }
  destruct (is_ready a) as [[]|e3]; cbn [bind fst snd app].
  2:{ destruct (is_Exception e3); cbn; repeat split;
        solve [reflexivity | discriminate | absurd_membership]. }
  repeat split; try reflexivity. intros _. cbn. tauto.
Qed.

(** X18.  The message handler is installed before the session is started:
    whenever [start] is called, the trace begins with the constructor call,
    the registration of the handler for "text_received" on the new session,
    which returned, and then the start. *)
Theorem handler_registered_before_start (a : Attempt) (g : option session)
    (s : session) :
  In (Start s) (fst (snd (connect_to_mumble a g))) ->
  new_mumble a = Ret s /\ set_callback a = Ret tt /\
  exists rest,
    fst (snd (connect_to_mumble a g)) =
    NewMumble MUMBLE_SERVER MUMBLE_USERNAME MUMBLE_PORT MUMBLE_PASSWORD
      :: SetCallback s (lit "text_received") :: Start s :: rest.
Proof.
  unfold connect_to_mumble, call, try_except, logging, raise.
  cbn [fst snd].
  destruct (new_mumble a) as [s'|e0]; cbn [bind fst snd app].
  2:{ destruct (is_Exception e0); cbn; absurd_membership. }
  destruct (set_callback a) as [[]|e1]; cbn [bind fst snd app].
  2:{ destruct (is_Exception e1); cbn; absurd_membership. }
  assert (Hs : forall rest,
             In (Start s)
                (NewMumble MUMBLE_SERVER MUMBLE_USERNAME MUMBLE_PORT
                           MUMBLE_PASSWORD
                   :: SetCallback s' (lit "text_received") :: Start s' :: rest) ->
             ~ In (Start s) rest -> s' = s).
  { intros rest [H|[H|[H|H]]] Hn; try discriminate;
      [congruence | contradiction]. }
  destruct (start a) as [[]|e2]; cbn [bind fst snd app];
    [destruct (is_ready a) as [[]|e3]; cbn [bind fst snd app]|];
    try match goal with
        | |- context [is_Exception ?e] => destruct (is_Exception e)
        end;
    cbn [bind fst snd app]; intros H;
    (assert (s' = s) as ->
        by (eapply Hs; [exact H|]; cbn; absurd_membership));
    repeat split; eexists; reflexivity.
Qed.

Lemma handler_registered_before_start_witness :
  new_mumble (always_refused 3) = Ret 3%N /\
  set_callback (always_refused 3) = Ret tt /\
  exists rest,
    fst (snd (connect_to_mumble (always_refused 3) None)) =
    NewMumble MUMBLE_SERVER MUMBLE_USERNAME MUMBLE_PORT MUMBLE_PASSWORD
      :: SetCallback 3%N (lit "text_received") :: Start 3%N :: rest.
Proof.
  apply (@handler_registered_before_start (always_refused 3) None 3%N).
  cbn. auto.
Defined.

(* ================================================================== *)
(** ** More on main *)

Lemma connects_app (t1 t2 : trace) :
  connects (t1 ++ t2) = (connects t1 + connects t2)%nat.
Proof. unfold connects. now rewrite filter_app, length_app. Qed.

Lemma stops_app (t1 t2 : trace) :
  stops (t1 ++ t2) = (stops t1 + stops t2)%nat.
Proof. unfold stops. now rewrite filter_app, length_app. Qed.

Lemma idle_sleeps_count (n : nat) :
  filter is_connect (repeat (Sleep 1) n) = [] /\
  filter is_stop (repeat (Sleep 1) n) = [].
Proof. induction n; [split; reflexivity | exact IHn]. Qed.

(** The [try] body calls the constructor once and never stops a session. *)
Lemma try_body_counts (a : Attempt) (g : option session) :
  connects (snd (fst (try_body a g))) = 1%nat /\
  stops (snd (fst (try_body a g))) = 0%nat.
Proof.
  unfold try_body, connect_to_mumble, call, try_except, logging, raise.
  destruct (new_mumble a) as [s|e0]; cbn [bind fst snd app].
  2:{ destruct (is_Exception e0); split; reflexivity. }
  destruct (set_callback a) as [[]|e1]; cbn [bind fst snd app].
  2:{ destruct (is_Exception e1); split; reflexivity. }
  destruct (start a) as [[]|e2]; cbn [bind fst snd app].
  2:{ destruct (is_Exception e2); split; reflexivity. }
  destruct (is_ready a) as [[]|e3]; cbn [bind fst snd app].
  2:{ destruct (is_Exception e3); split; reflexivity. }
  destruct (idle a) as [[n e]|]; cbn [fst snd]; [|split; reflexivity].
  unfold connects, stops.
  cbn [filter is_connect is_stop app].
  destruct (idle_sleeps_count (S n)) as [-> ->]. split; reflexivity.
Qed.

Lemma handlers_counts (a : Attempt) (e : exn) (i : nat) :
  connects (fst (fst (handlers a e i))) = 0%nat /\
  stops (fst (fst (handlers a e i))) = 0%nat.
Proof.
  unfold handlers.
  destruct (is_KeyboardInterrupt e); [|destruct (is_Exception e)];
    [| destruct (S i <? retry_attempts)%nat |]; split; reflexivity.
Qed.

Lemma finally_counts (a : Attempt) (g : option session) :
  connects (fst (finally_block a g)) = 0%nat /\
  stops (fst (finally_block a g)) = match g with Some _ => 1 | None => 0 end%nat.
Proof. destruct g; split; reflexivity. Qed.

(** From pass [i] on, the loop calls the constructor at most
    [retry_attempts - i] times. *)
Lemma main_loop_connects (env : nat -> Attempt) (fuel : nat) :
  forall i g,
    (connects (fst (fst (main_loop env fuel i g))) <= retry_attempts - i)%nat.
Proof.
  induction fuel as [|fuel IH]; intros i g; [cbn; lia|].
  destruct (Nat.lt_ge_cases i retry_attempts) as [Hi|Hi].
  2:{ rewrite main_loop_done by assumption. cbn. lia. }
  rewrite main_loop_pass by assumption. cbv zeta.
  destruct (try_body_counts (env i) g) as [Hb _].
  destruct (snd (try_body (env i) g)) as [e|]; cbn [fst snd]; [|lia].
  destruct (handlers_counts (env i) e i) as [Hh _].
  destruct (finally_counts (env i) (fst (fst (try_body (env i) g)))) as [Hf _].
  assert (Ht : connects
                 (snd (fst (try_body (env i) g))
                    ++ fst (fst (handlers (env i) e i))
                    ++ fst (finally_block (env i)
                              (fst (fst (try_body (env i) g))))) = 1%nat).
  { rewrite !connects_app, Hb, Hh, Hf. reflexivity. }
  destruct (snd (finally_block _ _)); cbn [fst snd]; [|lia].
  destruct (snd (handlers (env i) e i)) eqn:Hn; cbn [fst snd]; try lia.
  apply handlers_next in Hn as [-> Hlt].
  specialize (IH (S i) (fst (fst (try_body (env i) g)))).
  destruct (main_loop env fuel (S i) _) as [[t' g'] f'].
  cbn [prepend fst snd] in *. rewrite connects_app, Ht. lia.
Qed.

(** X19.  In no run does [main] call the constructor more than
    [retry_attempts] times: the counter is never reset, so connections that
    succeeded and were lost later use up the same budget as refused ones. *)
Theorem main_never_exceeds_retry_budget (env : nat -> Attempt) :
  (connects (fst (fst (main env))) <= retry_attempts)%nat.
Proof.
  pose proof (main_loop_connects env (S retry_attempts) 0 None) as H.
  unfold main. lia.
Qed.

(** X20.  When the constructor raises on the first pass, whatever the
    exception, the [finally] block reads the name [mumble] before any
    assignment to it: [main] ends with [NameError] after one attempt,
    without retrying and without stopping anything. *)
Theorem constructor_failure_ends_in_NameError (env : nat -> Attempt)
    (e : exn) :
  new_mumble (env 0%nat) = Raise e ->
  exists t,
    main env =
    (t, None, Crash (Exn NameError (lit "name 'mumble' is not defined")))
    /\ connects t = 1%nat /\ stops t = 0%nat.
Proof.
  intros Hn. unfold main.
  rewrite main_loop_pass by (unfold retry_attempts; lia). cbv zeta.
  destruct (try_body_counts (env 0%nat) None) as [Hb Hs].
  pose proof (try_body_global (env 0%nat) None) as Hg. rewrite Hn in Hg.
  assert (He : exists e', snd (try_body (env 0%nat) None) = Some e').
  { unfold try_body, connect_to_mumble, call, try_except. rewrite Hn.
    cbn [bind]. destruct (is_Exception e); cbn; eauto. }
  destruct He as [e' He]. rewrite He, Hg. cbn [finally_block raise fst snd].
  eexists. split; [reflexivity|].
  destruct (handlers_counts (env 0%nat) e' 0) as [Hh Hh'].
  rewrite !connects_app, !stops_app, Hb, Hs, Hh, Hh'. split; reflexivity.
Qed.

Lemma constructor_failure_ends_in_NameError_witness :
  exists t,
    main constructor_raises =
    (t, None, Crash (Exn NameError (lit "name 'mumble' is not defined")))
    /\ connects t = 1%nat /\ stops t = 0%nat.
Proof.
  apply (@constructor_failure_ends_in_NameError constructor_raises
           (Exn OtherException (lit "out of resources"))).
  reflexivity.
Defined.

(** Every run that ends holding a session has stopped a session once for
    each call of the constructor. *)
Lemma main_loop_stops (env : nat -> Attempt) (fuel : nat) :
  forall i g,
    exits (snd (main_loop env fuel i g)) = true ->
    (exists s, snd (fst (main_loop env fuel i g)) = Some s) ->
    stops (fst (fst (main_loop env fuel i g)))
    = connects (fst (fst (main_loop env fuel i g))).
Proof.
  induction fuel as [|fuel IH]; intros i g; [discriminate|].
  destruct (Nat.lt_ge_cases i retry_attempts) as [Hi|Hi].
  2:{ rewrite main_loop_done by assumption. reflexivity. }
  rewrite main_loop_pass by assumption. cbv zeta.
  destruct (try_body_counts (env i) g) as [Hb Hs].
  destruct (snd (try_body (env i) g)) as [e|]; cbn [fst snd]; [|discriminate].
  destruct (handlers_counts (env i) e i) as [Hh Hh'].
  destruct (fst (fst (try_body (env i) g))) as [s1|] eqn:Hg.
  2:{ cbn [finally_block raise fst snd]. intros _ [s Hs']. discriminate. }
  assert (Ht : stops (snd (fst (try_body (env i) g))
                        ++ fst (fst (handlers (env i) e i))
                        ++ fst (finally_block (env i) (Some s1))) = 1%nat
               /\ connects (snd (fst (try_body (env i) g))
                        ++ fst (fst (handlers (env i) e i))
                        ++ fst (finally_block (env i) (Some s1))) = 1%nat).
  { rewrite !connects_app, !stops_app, Hb, Hs, Hh, Hh'. split; reflexivity. }
  destruct Ht as [Ht1 Ht2].
  destruct (snd (finally_block (env i) (Some s1))); cbn [fst snd];
    [|intros; congruence].
  destruct (snd (handlers (env i) e i)) eqn:Hn; cbn [fst snd];
    try (intros; congruence).
  specialize (IH (snd (fst (handlers (env i) e i))) (Some s1)).
  destruct (main_loop env fuel _ (Some s1)) as [[t' g'] f'].
  cbn [prepend fst snd] in *. intros Hx Hg'.
  rewrite connects_app, stops_app, Ht1, Ht2, (IH Hx Hg'). reflexivity.
Qed.

(** X21.  In every run of [main] that comes to an end holding a session,
    [stop] has been called once for each call of the constructor: every
    pass, failed or not, stops the session it leaves behind. *)
Theorem every_attempt_is_stopped (env : nat -> Attempt) (t : trace)
    (s : session) (f : final) :
  main env = (t, Some s, f) ->
  exits f = true ->
  stops t = connects t.
Proof.
  intros Hm Hx.
  pose proof (main_loop_stops env (S retry_attempts) 0 None) as H.
  fold (main env) in H. rewrite Hm in H. cbn [fst snd] in H.
  apply H; [exact Hx | now exists s].
Qed.

Lemma every_attempt_is_stopped_witness :
  stops (fst (fst (main always_refused)))
  = connects (fst (fst (main always_refused))).
Proof.
  exact (@every_attempt_is_stopped always_refused
           (fst (fst (main always_refused))) 4%N Exit eq_refl eq_refl).
Defined.

(** What the [try] body does and how it ends does not depend on the old
    binding of [mumble]. *)
Lemma try_body_any_global (a : Attempt) (g : option session) :
  snd (fst (try_body a g)) = snd (fst (try_body a None)) /\
  snd (try_body a g) = snd (try_body a None).
Proof.
  unfold try_body, connect_to_mumble.
  destruct (try_except _ _ _) as [t [[]|e]]; [destruct (idle a) as [[n e]|]|];
    split; reflexivity.
Qed.

Lemma try_body_pass_fails (a : Attempt) (g : option session) :
  pass_fails a = true ->
  exists s e tb,
    is_Exception e = true /\ connects tb = 1%nat /\
    try_body a g = (Some s, tb, Some e).
Proof.
  unfold pass_fails. intros H.
  destruct (try_body_any_global a g) as [Ht Hr].
  pose proof (try_body_global a g) as Hg.
  destruct (try_body_counts a g) as [Hc _].
  destruct (new_mumble a) as [s|]; [|discriminate].
  destruct (snd (try_body a None)) as [e|]; [|discriminate].
  destruct (try_body a g) as [[g1 tb] r]. cbn [fst snd] in *.
  subst g1 r. now exists s, e, tb.
Qed.

(** A pass that ends with an [Exception], the wait and the stop
    undisturbed. *)
Lemma ending_pass (env : nat -> Attempt) (fuel i : nat) (g : option session)
    (s : session) (tb : trace) (e : exn) :
  (i < retry_attempts)%nat ->
  try_body (env i) g = (Some s, tb, Some e) ->
  is_Exception e = true ->
  undisturbed (env i) = true ->
  main_loop env (S fuel) i g =
  if (S i <? retry_attempts)%nat
  then
    prepend
      (tb ++ [Log ERROR (lit "Unexpected error: " ++ exn_msg e);
              Log INFO (lit "Retrying connection... (Attempt "
                            ++ str_of_nat (S i + 1) ++ lit " of "
                            ++ str_of_nat retry_attempts ++ lit ")");
              Sleep 5; Stop s])
      (main_loop env fuel (S i) (Some s))
  else
    (tb ++ [Log ERROR (lit "Unexpected error: " ++ exn_msg e);
            Log ERROR (lit "Max retry attempts reached. Exiting.");
            Stop s],
     Some s, Exit).
Proof.
  intros Hi Ht He Hu.
  rewrite main_loop_pass by assumption. cbv zeta. rewrite Ht.
  cbn [fst snd finally_block call].
  unfold undisturbed in Hu.
  destruct (retry_sleep (env i)) as [[]|] eqn:Er; [|discriminate].
  destruct (stop (env i)) as [[]|]; [|discriminate].
  unfold handlers. rewrite (Exception_not_interrupt _ He), He, Er.
  destruct (S i <? retry_attempts)%nat; reflexivity.
Qed.

(** A pass that connects and is interrupted while idle ends the loop. *)
Lemma interrupted_pass (env : nat -> Attempt) (fuel i : nat)
    (g : option session) :
  (i < retry_attempts)%nat ->
  interrupted_while_idle (env i) = true ->
  exists s tb,
    new_mumble (env i) = Ret s /\ connects tb = 1%nat /\
    main_loop env (S fuel) i g =
    (tb ++ [Log INFO (lit "Bot shutting down..."); Stop s], Some s, Exit).
Proof.
  intros Hi H. rewrite main_loop_pass by assumption. cbv zeta.
  destruct (try_body_counts (env i) g) as [Hc _].
  revert Hc. unfold interrupted_while_idle in H.
  unfold try_body, connect_to_mumble, call, try_except, logging.
  destruct (new_mumble (env i)) as [s|]; [|discriminate].
  destruct (set_callback (env i)) as [[]|]; [|discriminate].
  destruct (start (env i)) as [[]|]; [|discriminate].
  destruct (is_ready (env i)) as [[]|]; [|discriminate].
  destruct (idle (env i)) as [[n e]|]; [|discriminate].
  destruct (stop (env i)) as [[]|] eqn:Es; [|discriminate].
  cbn [bind fst snd app]. intros Hc.
  unfold handlers. rewrite H. cbn [fst snd finally_block call].
  rewrite Es. cbn [fst snd].
  do 2 eexists. split; [reflexivity|]. split; [exact Hc|]. reflexivity.
Qed.

Lemma interrupt_after_failures (env : nat -> Attempt) (k : nat) :
  forall i fuel g,
    (i + k < retry_attempts)%nat ->
    (k < fuel)%nat ->
    (forall j, (j < k)%nat ->
       pass_fails (env (i + j)%nat) = true
       /\ undisturbed (env (i + j)%nat) = true) ->
    interrupted_while_idle (env (i + k)%nat) = true ->
    exists t s,
      main_loop env fuel i g =
      (t ++ [Log INFO (lit "Bot shutting down..."); Stop s], Some s, Exit)
      /\ new_mumble (env (i + k)%nat) = Ret s
      /\ connects t = S k.
Proof.
  induction k as [|k IH]; intros i fuel g Hi Hf Hp Hk.
  - rewrite Nat.add_0_r in *. destruct fuel as [|fuel]; [lia|].
    destruct (@interrupted_pass env fuel i g Hi Hk) as (s & tb & Hn & Hc & ->).
    now exists tb, s.
  - destruct fuel as [|fuel]; [lia|].
    destruct (Hp 0%nat ltac:(lia)) as [Hp0 Hu0]. rewrite Nat.add_0_r in *.
    destruct (try_body_pass_fails (env i) g Hp0) as (s & e & tb & He & Hc & Ht).
    rewrite (@ending_pass env fuel i g s tb e ltac:(lia) Ht He Hu0).
    replace (S i <? retry_attempts)%nat with true
      by (symmetry; apply Nat.ltb_lt; lia).
    destruct (IH (S i) fuel (Some s)) as (t & s' & -> & Hn & Hc').
    + lia.
    + lia.
    + intros j Hj. replace (S i + j)%nat with (i + S j)%nat by lia.
      apply Hp. lia.
    + now replace (S i + k)%nat with (i + S k)%nat by lia.
    + cbn [prepend].
      match goal with
      | |- exists t0 s0, (?p ++ t ++ ?q, _, _) = _ /\ _ => exists (p ++ t), s'
      end.
      split; [|split].
      * now rewrite app_assoc.
      * now replace (i + S k)%nat with (S i + k)%nat by lia.
      * rewrite !connects_app, Hc, Hc'. cbn. lia.
Qed.

(** X22.  A keyboard interrupt while idle ends [main] without a retry, on
    whichever attempt it comes.  Let [k] be less than the budget.  If on
    each of the passes before pass [k] the constructor returns, the pass
    ends with an [Exception], and the wait before the next attempt and the
    stop return; and if on pass [k] the constructor, [set_callback], [start]
    and [is_ready] return, the idle loop is broken by [KeyboardInterrupt]
    and the stop returns; then [main] writes the shutdown record, stops the
    session built on pass [k] and returns, the constructor having been
    called [k + 1] times. *)
Theorem interrupt_ends_main_without_retry (env : nat -> Attempt) (k : nat) :
  (k < retry_attempts)%nat ->
  (forall i, (i < k)%nat ->
     pass_fails (env i) = true /\ undisturbed (env i) = true) ->
  interrupted_while_idle (env k) = true ->
  exists t s,
    main env =
    (t ++ [Log INFO (lit "Bot shutting down..."); Stop s], Some s, Exit)
    /\ new_mumble (env k) = Ret s
    /\ connects t = S k.
Proof.
  intros Hk Hp Hi. unfold main.
  apply (@interrupt_after_failures env k 0%nat (S retry_attempts) None);
    [exact Hk | lia | exact Hp | exact Hi].
Qed.

Lemma interrupt_ends_main_without_retry_witness :
  exists t s,
    main refused_then_interrupted =
    (t ++ [Log INFO (lit "Bot shutting down..."); Stop s], Some s, Exit)
    /\ new_mumble (refused_then_interrupted 4) = Ret s
    /\ connects t = 5%nat.
Proof.
  apply (@interrupt_ends_main_without_retry refused_then_interrupted 4).
  - unfold retry_attempts. lia.
  - intros i Hi.
    destruct i as [|[|[|[|i]]]]; [split; reflexivity ..|lia].
  - reflexivity.
Defined.

Lemma budget_used_up (env : nat -> Attempt) (k : nat) :
  forall i fuel g,
    (i + S k = retry_attempts)%nat ->
    (k < fuel)%nat ->
    (forall j, (j <= k)%nat ->
       pass_fails (env (i + j)%nat) = true
       /\ undisturbed (env (i + j)%nat) = true) ->
    exists t s,
      main_loop env fuel i g =
      (t ++ [Log ERROR (lit "Max retry attempts reached. Exiting."); Stop s],
       Some s, Exit)
      /\ connects t = S k.
Proof.
  induction k as [|k IH]; intros i fuel g Hi Hf Hp;
    (destruct fuel as [|fuel]; [lia|]);
    destruct (Hp 0%nat ltac:(lia)) as [Hp0 Hu0]; rewrite Nat.add_0_r in *;
    destruct (try_body_pass_fails (env i) g Hp0) as (s & e & tb & He & Hc & Ht);
    rewrite (@ending_pass env fuel i g s tb e ltac:(lia) Ht He Hu0).
  - replace (S i <? retry_attempts)%nat with false
      by (symmetry; apply Nat.ltb_ge; lia).
    exists (tb ++ [Log ERROR (lit "Unexpected error: " ++ exn_msg e)]), s.
    split; [now rewrite <- app_assoc|].
    rewrite connects_app, Hc. reflexivity.
  - replace (S i <? retry_attempts)%nat with true
      by (symmetry; apply Nat.ltb_lt; lia).
    destruct (IH (S i) fuel (Some s)) as (t & s' & -> & Hc').
    + lia.
    + lia.
    + intros j Hj. replace (S i + j)%nat with (i + S j)%nat by lia.
      apply Hp. lia.
    + cbn [prepend].
      match goal with
      | |- exists t0 s0, (?p ++ t ++ ?q, _, _) = _ /\ _ => exists (p ++ t), s'
      end.
      split.
      * now rewrite app_assoc.
      * rewrite !connects_app, Hc, Hc'. cbn. lia.
Qed.

(** X23.  The budget counts passes, not consecutive refusals.  If on each
    of the five passes the constructor returns and the pass then ends with
    an [Exception], raised by a later step of [connect_to_mumble] or in the
    idle loop of a session that had connected, and the wait before the next
    attempt and the stop return, then [main] calls the constructor five
    times in all, writes the record [Max retry attempts reached. Exiting.],
    stops the last session and returns. *)
Theorem lost_sessions_use_up_the_budget (env : nat -> Attempt) :
  (forall i, (i < retry_attempts)%nat ->
     pass_fails (env i) = true /\ undisturbed (env i) = true) ->
  exists t s,
    main env =
    (t ++ [Log ERROR (lit "Max retry attempts reached. Exiting."); Stop s],
     Some s, Exit)
    /\ connects t = retry_attempts.
Proof.
  intros Hp. unfold main.
  apply (@budget_used_up env 4 0%nat (S retry_attempts) None);
    [reflexivity | unfold retry_attempts; lia |].
  intros j Hj. apply Hp. unfold retry_attempts. cbn. lia.
Qed.

Lemma lost_sessions_use_up_the_budget_witness :
  exists t s,
    main dropped_sessions =
    (t ++ [Log ERROR (lit "Max retry attempts reached. Exiting."); Stop s],
     Some s, Exit)
    /\ connects t = retry_attempts.
Proof.
  apply (@lost_sessions_use_up_the_budget dropped_sessions).
  intros i _. split; reflexivity.
Defined.
